(** * NSE data backend: cache, quote fetcher, fan-out and aggregate views

    A shallow embedding of [nse_backend.py].

    - For the cache, the fan-out and the routes, the numbers that hold
      prices, percentages and clock readings are idealised as rationals
      ([Q]); [round(x, 2)] rounds half to even on the hundredths and
      division raises on a zero divisor. Nothing stated at this level
      depends on the last digit of a price.
    - The module-level dictionary [cache] is a [gmap] from strings to pairs
      of a value and the time it was stored.
    - The provider's answers are typed: a field of [ticker.info] is a
      number or a string when its key is there, and the price history is a
      list of rows.
    - Everything the program reads from outside (the system clock, the
      [yfinance] provider, the order in which worker tasks finish) comes
      from an environment [env], indexed by how many times it was asked.
    - A Python string is the list of the bytes of its UTF-8 encoding.
      [str.upper] follows the case tables of Unicode, which are not
      modelled: it is a function of the environment, and [upper] is what it
      does on ASCII strings.
    - Code runs in a state-and-exception monad [M]; [try ... except
      Exception] is [try_except].
    - The tasks of a worker pool are run one after another, in the order in
      which they finish; that order is arbitrary.

    What a quote holds, digit for digit, depends on more than that: prices
    are binary64 numbers, [round] on them is numpy's, and a value of
    [ticker.info] can be anything JSON can say. Module [Exact] embeds
    [get_stock_data] once more at that level, and the statements about the
    fields of a quote are made there. *)

From Stdlib Require Import ZArith QArith Qround Qabs Lqa Lia Ascii String.
From Stdlib Require Import Floats.PrimFloat Floats.SpecFloat Floats.FloatOps.
From Stdlib Require Import Floats.FloatAxioms.
From stdpp Require Import gmap strings list sorting.

#[local] Set Warnings "-register-all,-inexact-float".

Local Open Scope string_scope.
Local Open Scope list_scope.

(** ** Exceptions and results *)

Inductive exn :=
| KeyError | IndexError | ZeroDivisionError | TypeError | ValueError
| OverflowError | ProviderError.

Inductive result (A : Type) :=
| Ok (a : A)
| Raise (e : exn).
Arguments Ok {A} a.
Arguments Raise {A} e.

Definition rbind {A B} (r : result A) (k : A → result B) : result B :=
  match r with
  | Ok a => k a
  | Raise e => Raise e
  end.

Notation "'let?' x := c 'in' k" := (rbind c (fun x => k))
  (at level 10, x name, c at level 100, k at level 200).

(** ** Numbers *)

(** Truth value of a number: zero is falsy. *)
Definition truthy_num (x : Q) : bool := negb (Qeq_bool x 0).

(** [a / b]; a zero divisor is a fault. *)
Definition divide (a b : Q) : result Q :=
  if Qeq_bool b 0 then Raise ZeroDivisionError else Ok (a / b)%Q.

(** Nearest integer, ties to the even neighbour. *)
Definition round_half_even (x : Q) : Z :=
  let f := Qfloor x in
  match Qcompare (x - inject_Z f) (1 # 2) with
  | Lt => f
  | Gt => (f + 1)%Z
  | Eq => if Z.even f then f else (f + 1)%Z
  end.

(** [round(x, 2)]. *)
Definition round2 (x : Q) : Q := (round_half_even (x * 100) # 100)%Q.

(** [int(x)]: truncation towards zero. *)
Definition int (x : Q) : Z := Z.quot (Qnum x) (Z.pos (Qden x)).

(** ** Provider data *)

(** [ticker.info]: a field is [None] when the provider's dictionary has no
    such key. *)
Module Info.
Record t := {
  previousClose : option Q;
  longName : option string;
  marketCap : option Z;
  sector : option string;
  industry : option string
}.
End Info.

(** One row of [ticker.history(period='1d')]. *)
Module Bar.
Record t := { Open : Q; High : Q; Low : Q; Close : Q; Volume : Q }.
End Bar.

(** What one [yf.Ticker(symbol)] object answers: each of the two requests
    either raises or returns. *)
Record ticker := {
  info : result Info.t;
  history : result (list Bar.t)
}.

(** ** Values the program builds *)

Module Quote.
Record t := {
  symbol : string;
  name : string;
  price : Q;
  change : Q;
  changePercent : Q;
  open : option Q;
  high : option Q;
  low : option Q;
  volume : Z;
  marketCap : Z;
  sector : string;
  industry : string
}.
End Quote.

Module IndexRow.
Record t := {
  name : string;
  symbol : string;
  price : Q;
  change : Q;
  changePercent : Q;
  timestamp : Q
}.
End IndexRow.

(** The body of a list endpoint. [query] is present only for search,
    [timestamp] only for the four cached views. *)
Record response (V : Type) := {
  success : bool;
  query : option string;
  count : nat;
  data : list V;
  timestamp : option Q
}.
Arguments success {V} r.
Arguments query {V} r.
Arguments count {V} r.
Arguments data {V} r.
Arguments timestamp {V} r.

(** The dictionaries that can sit in the cache or in a response. *)
Inductive pyval :=
| PQuote (q : Quote.t)
| PIndex (i : IndexRow.t)
| PResponse (r : response pyval).

(** ** The world *)

Record env := {
  (** the n-th reading of the system clock, in seconds *)
  time_at : nat → Q;
  (** the n-th [yf.Ticker] object *)
  provider : nat → string → ticker;
  (** for the k-th worker pool with n tasks: the order in which they finish *)
  completion : nat → nat → list nat;
  (** [str.upper] of the interpreter *)
  str_upper : string → string
}.

Record state := {
  cache : gmap string (pyval * Q);
  clock_reads : nat;
  (** symbols passed to [yf.Ticker], latest first *)
  queries : list string;
  (** worker pools created so far *)
  pools : nat
}.

Definition M (A : Type) : Type := env → state → result A * state.

Definition ret {A} (a : A) : M A := fun _ s => (Ok a, s).

Definition bind {A B} (c : M A) (k : A → M B) : M B := fun e s =>
  match c e s with
  | (Ok a, s') => k a e s'
  | (Raise x, s') => (Raise x, s')
  end.

Definition lift {A} (r : result A) : M A := fun _ s => (r, s).

Definition try_except {A} (body : M A) (handler : exn → M A) : M A := fun e s =>
  match body e s with
  | (Ok a, s') => (Ok a, s')
  | (Raise x, s') => handler x e s'
  end.

Notation "'let!' x := c 'in' k" := (bind c (fun x => k))
  (at level 10, x name, c at level 100, k at level 200).

(** [time.time()]; [datetime.now(IST)] reads the same clock. *)
Definition time_time : M Q := fun e s =>
  (Ok (time_at e (clock_reads s)),
   {| cache := cache s; clock_reads := S (clock_reads s);
      queries := queries s; pools := pools s |}).

Definition read_cache : M (gmap string (pyval * Q)) := fun _ s => (Ok (cache s), s).

Definition write_cache (key : string) (entry : pyval * Q) : M unit := fun _ s =>
  (Ok tt,
   {| cache := <[key := entry]> (cache s); clock_reads := clock_reads s;
      queries := queries s; pools := pools s |}).

(** ** Cache *)

Definition CACHE_TTL : Q := 60.

Definition get_cached (key : string) : M (option pyval) :=
  let! cache := read_cache in
  match cache !! key with
  | Some (data, timestamp) =>
      let! now := time_time in
      if Qlt_le_dec (now - timestamp) CACHE_TTL then ret (Some data) else ret None
  | None => ret None
  end.

Definition set_cached (key : string) (data : pyval) : M unit :=
  let! now := time_time in
  write_cache key (data, now).

(** ** Stock data *)

Definition NSE_INDICES : list (string * string) :=
  [("NIFTY 50", "^NSEI"); ("SENSEX", "^BSESN"); ("BANK NIFTY", "^NSEBANK");
   ("NIFTY IT", "^CNXIT"); ("NIFTY PHARMA", "^CNXPHARMA"); ("NIFTY AUTO", "^CNXAUTO")].

Definition NIFTY_50_STOCKS : list string :=
  ["RELIANCE.NS"; "TCS.NS"; "HDFCBANK.NS"; "INFY.NS"; "ICICIBANK.NS";
   "HINDUNILVR.NS"; "ITC.NS"; "SBIN.NS"; "BHARTIARTL.NS"; "KOTAKBANK.NS";
   "LT.NS"; "AXISBANK.NS"; "ASIANPAINT.NS"; "MARUTI.NS"; "SUNPHARMA.NS";
   "TITAN.NS"; "WIPRO.NS"; "TATAMOTORS.NS"; "BAJFINANCE.NS"; "M&M.NS";
   "NESTLEIND.NS"; "HCLTECH.NS"; "ULTRACEMCO.NS"; "ONGC.NS"; "POWERGRID.NS";
   "NTPC.NS"; "JSWSTEEL.NS"; "TATASTEEL.NS"; "ADANIENT.NS"; "ADANIPORTS.NS"].

(** [yf.Ticker(symbol)]: the request is recorded in [queries]. *)
Definition yf_Ticker (symbol : string) : M ticker := fun e s =>
  (Ok (provider e (length (queries s)) symbol),
   {| cache := cache s; clock_reads := clock_reads s;
      queries := symbol :: queries s; pools := pools s |}).

(** [series.empty] *)
Definition empty {A} (l : list A) : bool :=
  match l with [] => true | _ => false end.

(** [series.iloc[-1]] *)
Definition iloc_last {A} (l : list A) : result A :=
  match last l with
  | Some x => Ok x
  | None => Raise IndexError
  end.

(** [if cached:] holds exactly when [cached] is not [None]: every
    dictionary the program stores has keys, hence is truthy. *)
Definition get_stock_data (symbol : string) : M (option pyval) :=
  let! cached := get_cached ("stock_" +:+ symbol) in
  match cached with
  | Some _ => ret cached
  | None =>
    try_except
      (let! ticker := yf_Ticker symbol in
       let! info := lift (info ticker) in
       let! history := lift (history ticker) in
       if empty history then ret None else
       let! current_price := lift (iloc_last (Bar.Close <$> history)) in
       let prev_close := default current_price (Info.previousClose info) in
       let change := (current_price - prev_close)%Q in
       let! change_percent :=
         lift (if truthy_num prev_close
               then let? d := divide change prev_close in Ok (d * 100)%Q
               else Ok 0%Q) in
       let! open :=
         lift (if negb (empty (Bar.Open <$> history))
               then let? x := iloc_last (Bar.Open <$> history) in Ok (Some (round2 x))
               else Ok None) in
       let! high :=
         lift (if negb (empty (Bar.High <$> history))
               then let? x := iloc_last (Bar.High <$> history) in Ok (Some (round2 x))
               else Ok None) in
       let! low :=
         lift (if negb (empty (Bar.Low <$> history))
               then let? x := iloc_last (Bar.Low <$> history) in Ok (Some (round2 x))
               else Ok None) in
       let! volume :=
         lift (if negb (empty (Bar.Volume <$> history))
               then let? x := iloc_last (Bar.Volume <$> history) in Ok (int x)
               else Ok 0%Z) in
       let result := PQuote {|
         Quote.symbol := symbol;
         Quote.name := default symbol (Info.longName info);
         Quote.price := round2 current_price;
         Quote.change := round2 change;
         Quote.changePercent := round2 change_percent;
         Quote.open := open;
         Quote.high := high;
         Quote.low := low;
         Quote.volume := volume;
         Quote.marketCap := default 0%Z (Info.marketCap info);
         Quote.sector := default "N/A" (Info.sector info);
         Quote.industry := default "N/A" (Info.industry info)
       |} in
       let! _ := set_cached ("stock_" +:+ symbol) result in
       ret (Some result))
      (fun _ => ret None)
  end.

(** A future: the symbol its task was submitted for and how the task
    ended. *)
Definition future : Type := string * result (option pyval).

(** The pool runs every submitted task to its end, whatever the others do;
    tasks are listed, and take effect, in the order in which they finish. *)
Fixpoint run_tasks (tasks : list string) (e : env) (s : state) : list future * state :=
  match tasks with
  | [] => ([], s)
  | symbol :: rest =>
      let '(r, s1) := get_stock_data symbol e s in
      let '(fs, s2) := run_tasks rest e s1 in
      ((symbol, r) :: fs, s2)
  end.

(** [executor.submit] for every symbol, then the pool's work. *)
Definition submit_all (symbols : list string) : M (list future) := fun e s =>
  let order := completion e (pools s) (length symbols) in
  let s0 := {| cache := cache s; clock_reads := clock_reads s;
               queries := queries s; pools := S (pools s) |} in
  let '(fs, s1) := run_tasks (omap (fun i => symbols !! i) order) e s0 in
  (Ok fs, s1).

(** [for future in as_completed(...)]: [future.result()] re-raises what the
    task raised. *)
Fixpoint gather (futures : list future) (results : list pyval) : result (list pyval) :=
  match futures with
  | [] => Ok results
  | (_, r) :: rest =>
      let? data := r in
      match data with
      | Some d => gather rest (results ++ [d])
      | None => gather rest results
      end
  end.

Definition fetch_stocks_concurrent (symbols : list string) : M (list pyval) :=
  let! futures := submit_all symbols in
  lift (gather futures []).

(** ** Lists and strings of the language *)

Fixpoint mapM {A B} (f : A → result B) (l : list A) : result (list B) :=
  match l with
  | [] => Ok []
  | x :: l' =>
      let? y := f x in
      let? ys := mapM f l' in
      Ok (y :: ys)
  end.

(** [[x for x in l if p(x)]] *)
Fixpoint filterM {A} (p : A → result bool) (l : list A) : result (list A) :=
  match l with
  | [] => Ok []
  | x :: l' =>
      let? b := p x in
      let? xs := filterM p l' in
      Ok (if b then x :: xs else xs)
  end.

Definition Qlt_bool (a b : Q) : bool := if Qlt_le_dec a b then true else false.

Section list_sort.
Context {A : Type}.

(** [kx] stood before the elements of [l]: it stays before every element
    that is not smaller. Only [<] on keys is used. *)
Fixpoint insert_sorted (kx : Q * A) (l : list (Q * A)) : list (Q * A) :=
  match l with
  | [] => [kx]
  | ky :: l' =>
      if Qlt_bool (fst ky) (fst kx) then ky :: insert_sorted kx l'
      else kx :: ky :: l'
  end.

Definition stable_sort (l : list (Q * A)) : list (Q * A) :=
  foldr insert_sorted [] l.

(** [l.sort(key=key, reverse=reverse)]: the keys are computed first; a
    reverse sort reverses the list, sorts it and reverses the outcome,
    which keeps equal keys in their original order. *)
Definition list_sort (key : A → result Q) (reverse : bool) (l : list A) : result (list A) :=
  let? keys := mapM key l in
  let decorated := zip keys l in
  let sorted :=
    if reverse then rev (stable_sort (rev decorated)) else stable_sort decorated in
  Ok (snd <$> sorted).
End list_sort.

Definition upper_ascii (c : ascii) : ascii :=
  let n := nat_of_ascii c in
  if (97 <=? n)%nat && (n <=? 122)%nat then ascii_of_nat (n - 32) else c.

(** [s.upper()] for a string of ASCII characters: the letters [a] to [z]
    become [A] to [Z]. *)
Fixpoint upper (s : string) : string :=
  match s with
  | EmptyString => EmptyString
  | String c s' => String (upper_ascii c) (upper s')
  end.

(** The method [upper] of the interpreter's strings, for any string. *)
Definition builtin_upper : M (string → string) := fun e s => (Ok (str_upper e), s).

(** [s.endswith(suffix)] *)
Fixpoint endswith (s suffix : string) : bool :=
  String.eqb s suffix ||
  match s with
  | EmptyString => false
  | String _ s' => endswith s' suffix
  end.

(** [sub in s] *)
Fixpoint contains (sub s : string) : bool :=
  String.prefix sub s ||
  match s with
  | EmptyString => false
  | String _ s' => contains sub s'
  end.

(** ** Subscripts on the dictionaries *)

Definition getitem_symbol (d : pyval) : result string :=
  match d with
  | PQuote q => Ok (Quote.symbol q)
  | PIndex i => Ok (IndexRow.symbol i)
  | PResponse _ => Raise KeyError
  end.

Definition getitem_price (d : pyval) : result Q :=
  match d with
  | PQuote q => Ok (Quote.price q)
  | PIndex i => Ok (IndexRow.price i)
  | PResponse _ => Raise KeyError
  end.

Definition getitem_change (d : pyval) : result Q :=
  match d with
  | PQuote q => Ok (Quote.change q)
  | PIndex i => Ok (IndexRow.change i)
  | PResponse _ => Raise KeyError
  end.

Definition getitem_changePercent (d : pyval) : result Q :=
  match d with
  | PQuote q => Ok (Quote.changePercent q)
  | PIndex i => Ok (IndexRow.changePercent i)
  | PResponse _ => Raise KeyError
  end.

(** ** Routes *)

(** What [market_status] reads of [datetime.now(IST)]: the weekday (Monday
    is 0) and the time of day to the minute. *)
Record datetime := { weekday : nat; hour : nat; minute : nat }.

Module MarketStatus.
Record t := { isOpen : bool; day : string; message : string }.
End MarketStatus.

Definition day_name (weekday : nat) : string :=
  match weekday with
  | 0 => "Monday" | 1 => "Tuesday" | 2 => "Wednesday" | 3 => "Thursday"
  | 4 => "Friday" | 5 => "Saturday" | _ => "Sunday"
  end%nat.

Definition market_status (now : datetime) : MarketStatus.t :=
  let is_weekday := (weekday now <? 5)%nat in
  let market_open :=
    is_weekday &&
    (((hour now =? 9)%nat && (15 <=? minute now)%nat) ||
     ((9 <? hour now)%nat && (hour now <? 15)%nat) ||
     ((hour now =? 15)%nat && (minute now <=? 30)%nat)) in
  {| MarketStatus.isOpen := market_open;
     MarketStatus.day := day_name (weekday now);
     MarketStatus.message := if market_open then "Market is open" else "Market is closed" |}.

(** [dict(zip(NSE_INDICES.values(), NSE_INDICES.keys()))]: a later pair
    replaces an earlier one with the same symbol. *)
Definition symbol_to_name : gmap string string :=
  foldl (fun m p => <[snd p := fst p]> m) ∅ NSE_INDICES.

(** The loop of [get_indices] over the fetched results. *)
Fixpoint index_rows (results : list pyval) (indices_data : list pyval) : M (list pyval) :=
  match results with
  | [] => ret indices_data
  | data :: rest =>
      let! sym := lift (getitem_symbol data) in
      let name := default sym (symbol_to_name !! sym) in
      let! price := lift (getitem_price data) in
      let! change := lift (getitem_change data) in
      let! change_percent := lift (getitem_changePercent data) in
      let! now := time_time in
      index_rows rest
        (indices_data ++
         [PIndex {| IndexRow.name := name; IndexRow.symbol := sym;
                    IndexRow.price := price; IndexRow.change := change;
                    IndexRow.changePercent := change_percent;
                    IndexRow.timestamp := now |}])
  end.

Definition get_indices : M pyval :=
  let! cached := get_cached "indices_response" in
  match cached with
  | Some c => ret c
  | None =>
      let symbols := snd <$> NSE_INDICES in
      let! results := fetch_stocks_concurrent symbols in
      let! indices_data := index_rows results [] in
      let! now := time_time in
      let response := PResponse {|
        success := true; query := None; count := length indices_data;
        data := indices_data; timestamp := Some now |} in
      let! _ := set_cached "indices_response" response in
      ret response
  end.

Definition get_stocks : M pyval :=
  let! cached := get_cached "stocks_response" in
  match cached with
  | Some c => ret c
  | None =>
      let! stocks_data := fetch_stocks_concurrent (take 20 NIFTY_50_STOCKS) in
      let! stocks_data :=
        lift (list_sort (fun x => let? cp := getitem_changePercent x in Ok (Qabs cp))
                true stocks_data) in
      let! now := time_time in
      let response := PResponse {|
        success := true; query := None; count := length stocks_data;
        data := stocks_data; timestamp := Some now |} in
      let! _ := set_cached "stocks_response" response in
      ret response
  end.

Module Single.
Record t := {
  status : nat;
  success : bool;
  data : option pyval;
  error : option string;
  timestamp : option Q
}.
End Single.

Definition get_single_stock (symbol : string) : M Single.t :=
  let symbol :=
    if negb (endswith symbol ".NS") && negb (endswith symbol ".BO")
    then symbol +:+ ".NS" else symbol in
  let! data := get_stock_data symbol in
  match data with
  | Some _ =>
      let! now := time_time in
      ret {| Single.status := 200; Single.success := true; Single.data := data;
             Single.error := None; Single.timestamp := Some now |}
  | None =>
      ret {| Single.status := 404; Single.success := false; Single.data := None;
             Single.error := Some "Stock not found or data unavailable";
             Single.timestamp := None |}
  end.

Definition get_gainers : M pyval :=
  let! cached := get_cached "gainers_response" in
  match cached with
  | Some c => ret c
  | None =>
      let! all_stocks := fetch_stocks_concurrent (take 30 NIFTY_50_STOCKS) in
      let! stocks_data :=
        lift (filterM (fun s => let? cp := getitem_changePercent s in Ok (Qlt_bool 0 cp))
                all_stocks) in
      let! stocks_data := lift (list_sort getitem_changePercent true stocks_data) in
      let! now := time_time in
      let response := PResponse {|
        success := true; query := None; count := length (take 10 stocks_data);
        data := take 10 stocks_data; timestamp := Some now |} in
      let! _ := set_cached "gainers_response" response in
      ret response
  end.

Definition get_losers : M pyval :=
  let! cached := get_cached "losers_response" in
  match cached with
  | Some c => ret c
  | None =>
      let! all_stocks := fetch_stocks_concurrent (take 30 NIFTY_50_STOCKS) in
      let! stocks_data :=
        lift (filterM (fun s => let? cp := getitem_changePercent s in Ok (Qlt_bool cp 0))
                all_stocks) in
      let! stocks_data := lift (list_sort getitem_changePercent false stocks_data) in
      let! now := time_time in
      let response := PResponse {|
        success := true; query := None; count := length (take 10 stocks_data);
        data := take 10 stocks_data; timestamp := Some now |} in
      let! _ := set_cached "losers_response" response in
      ret response
  end.

Definition search_stocks (query : string) : M pyval :=
  let! to_upper := builtin_upper in
  let query := to_upper query in
  let matching_symbols :=
    List.filter (fun s => contains query (to_upper s)) NIFTY_50_STOCKS in
  let! results :=
    if negb (empty matching_symbols) then fetch_stocks_concurrent matching_symbols
    else ret [] in
  ret (PResponse {|
    success := true; query := Some query; count := length results;
    data := results; timestamp := None |}).

(** ** Programs over the cache alone *)

Inductive cache_op :=
| OpGet (key : string)
| OpSet (key : string) (data : pyval).

Definition writes (k : string) (o : cache_op) : Prop :=
  match o with
  | OpGet _ => False
  | OpSet k' _ => k' = k
  end.

Definition run_op (o : cache_op) : M unit :=
  match o with
  | OpGet key => let! _ := get_cached key in ret tt
  | OpSet key data => set_cached key data
  end.

Fixpoint run_ops (ops : list cache_op) : M unit :=
  match ops with
  | [] => ret tt
  | o :: rest => let! _ := run_op o in run_ops rest
  end.

(** * The quote fetcher, digit for digit *)

(** [get_stock_data] with the numbers and the provider's values as the
    interpreter has them. Prices are binary64 numbers ([numpy.float64]), NaN
    and the infinities among them; a value of [ticker.info] is whatever
    JSON can say, [null] included; [round] on a [numpy.float64] is numpy's. *)
Module Exact.

(** ** Values *)

(** A scalar of JSON, as [info.get] returns it. The default of line 99,
    a [numpy.float64], is a [PyFloat] as well. *)
Inductive pyobj :=
| PyNone
| PyBool (b : bool)
| PyInt (z : Z)
| PyFloat (f : float)
| PyStr (s : string).

(** [bool(x)], as [if x] takes it. *)
Definition truthy (x : pyobj) : bool :=
  match x with
  | PyNone => false
  | PyBool b => b
  | PyInt z => negb (z =? 0)%Z
  | PyFloat f => negb (f =? 0)%float
  | PyStr EmptyString => false
  | PyStr (String _ _) => true
  end.

(** A Python integer as a binary64 number: the nearest one, ties to even.
    An integer beyond the range of binary64 does not convert. *)
Definition float_of_int (z : Z) : result float :=
  let f := SF2Prim (binary_normalize prec emax z 0 false) in
  if is_infinity f then Raise OverflowError else Ok f.

(** The other operand of [-] and [/] next to a [numpy.float64]: numbers
    convert to binary64, [None] and strings are a type error. *)
Definition number (x : pyobj) : result float :=
  match x with
  | PyFloat f => Ok f
  | PyInt z => float_of_int z
  | PyBool b => Ok (if b then 1 else 0)%float
  | PyNone | PyStr _ => Raise TypeError
  end.

(** [numpy.rint]: the nearest integer, ties to even. Below [2^52] in
    absolute value, adding and taking away [2^52] rounds to an integer;
    from there on every binary64 number is an integer already. Zeros,
    infinities and NaN come back as they are. *)
Definition rint (x : float) : float :=
  if (x =? 0)%float then x
  else if (abs x <? 4503599627370496)%float then
    if (x <? 0)%float
    then (- ((- x + 4503599627370496) - 4503599627370496))%float
    else ((x + 4503599627370496) - 4503599627370496)%float
  else x.

(** [round(x, 2)] for a [numpy.float64]: times 100, [rint], divided by
    100, each step rounded to binary64. *)
Definition np_round2 (x : float) : float := (rint (x * 100) / 100)%float.

(** What the arithmetic of line 101 yields: a [numpy.float64], or the
    Python integer of the other branch. *)
Inductive num :=
| Float64 (f : float)
| Int (z : Z).

(** [round(x, 2)]: an integer is its own rounding. *)
Definition round2 (x : num) : num :=
  match x with
  | Float64 f => Float64 (np_round2 f)
  | Int z => Int z
  end.

(** [int(x)]: an integer is itself; a [numpy.float64] is cut off towards
    zero, and NaN and the infinities do not convert. *)
Definition int (x : num) : result Z :=
  match x with
  | Int z => Ok z
  | Float64 f =>
      match Prim2SF f with
      | S754_zero _ => Ok 0%Z
      | S754_finite s m e => Ok (cond_Zopp s (Z.shiftl (Z.pos m) e))
      | S754_infinity _ => Raise OverflowError
      | S754_nan => Raise ValueError
      end
  end.

(** ** Provider data *)

(** [ticker.history(period='1d')]: the length of the index and the five
    columns the program reads. The prices are [numpy.float64]; the volumes
    are integers, or [numpy.float64] when the provider has gaps. pandas
    keeps every column as long as the index; this is not assumed here, so
    that each guard of lines 109 to 112 has its two branches. *)
Module Frame.
Record t := {
  rows : nat;
  Open : list float;
  High : list float;
  Low : list float;
  Close : list float;
  Volume : list num
}.
End Frame.

(** [history.empty] *)
Definition frame_empty (h : Frame.t) : bool := (Frame.rows h =? 0)%nat.

Record ticker := {
  info : result (gmap string pyobj);
  history : result Frame.t
}.

(** The dictionary [get_stock_data] builds. *)
Module Quote.
Record t := {
  symbol : string;
  name : pyobj;
  price : float;
  change : float;
  changePercent : num;
  open : option float;
  high : option float;
  low : option float;
  volume : Z;
  marketCap : pyobj;
  sector : pyobj;
  industry : pyobj
}.
End Quote.

(** ** The world *)

Record env := {
  time_at : nat → Q;
  provider : nat → string → ticker
}.

Record state := {
  cache : gmap string (Quote.t * Q);
  clock_reads : nat;
  queries : list string
}.

Definition M (A : Type) : Type := env → state → result A * state.

Definition ret {A} (a : A) : M A := fun _ s => (Ok a, s).

Definition bind {A B} (c : M A) (k : A → M B) : M B := fun e s =>
  match c e s with
  | (Ok a, s') => k a e s'
  | (Raise x, s') => (Raise x, s')
  end.

Definition lift {A} (r : result A) : M A := fun _ s => (r, s).

Definition try_except {A} (body : M A) (handler : exn → M A) : M A := fun e s =>
  match body e s with
  | (Ok a, s') => (Ok a, s')
  | (Raise x, s') => handler x e s'
  end.

Notation "'do!' x := c 'in' k" := (bind c (fun x => k))
  (at level 10, x name, c at level 100, k at level 200).

Definition time_time : M Q := fun e s =>
  (Ok (time_at e (clock_reads s)),
   {| cache := cache s; clock_reads := S (clock_reads s); queries := queries s |}).

Definition get_cached (key : string) : M (option Quote.t) := fun e s =>
  match cache s !! key with
  | Some (data, timestamp) =>
      (do! now := time_time in
       if Qlt_le_dec (now - timestamp) CACHE_TTL then ret (Some data) else ret None) e s
  | None => (Ok None, s)
  end.

Definition set_cached (key : string) (data : Quote.t) : M unit := fun e s =>
  (Ok tt,
   {| cache := <[key := (data, time_at e (clock_reads s))]> (cache s);
      clock_reads := S (clock_reads s); queries := queries s |}).

Definition yf_Ticker (symbol : string) : M ticker := fun e s =>
  (Ok (provider e (length (queries s)) symbol),
   {| cache := cache s; clock_reads := clock_reads s;
      queries := symbol :: queries s |}).

(** ** Stock data *)

Definition get_stock_data (symbol : string) : M (option Quote.t) :=
  do! cached := get_cached ("stock_" +:+ symbol) in
  match cached with
  | Some _ => ret cached
  | None =>
    try_except
      (do! ticker := yf_Ticker symbol in
       do! info := lift (info ticker) in
       do! history := lift (history ticker) in
       if frame_empty history then ret None else
       do! current_price := lift (iloc_last (Frame.Close history)) in
       let prev_close := default (PyFloat current_price) (info !! "previousClose") in
       do! divisor := lift (number prev_close) in
       let change := (current_price - divisor)%float in
       let change_percent :=
         if truthy prev_close then Float64 (change / divisor * 100)%float
         else Int 0 in
       do! open :=
         lift (if negb (empty (Frame.Open history))
               then let? x := iloc_last (Frame.Open history) in Ok (Some (np_round2 x))
               else Ok None) in
       do! high :=
         lift (if negb (empty (Frame.High history))
               then let? x := iloc_last (Frame.High history) in Ok (Some (np_round2 x))
               else Ok None) in
       do! low :=
         lift (if negb (empty (Frame.Low history))
               then let? x := iloc_last (Frame.Low history) in Ok (Some (np_round2 x))
               else Ok None) in
       do! volume :=
         lift (if negb (empty (Frame.Volume history))
               then let? x := iloc_last (Frame.Volume history) in int x
               else Ok 0%Z) in
       let result := {|
         Quote.symbol := symbol;
         Quote.name := default (PyStr symbol) (info !! "longName");
         Quote.price := np_round2 current_price;
         Quote.change := np_round2 change;
         Quote.changePercent := round2 change_percent;
         Quote.open := open;
         Quote.high := high;
         Quote.low := low;
         Quote.volume := volume;
         Quote.marketCap := default (PyInt 0) (info !! "marketCap");
         Quote.sector := default (PyStr "N/A") (info !! "sector");
         Quote.industry := default (PyStr "N/A") (info !! "industry")
       |} in
       do! _ := set_cached ("stock_" +:+ symbol) result in
       ret (Some result))
      (fun _ => ret None)
  end.

(** ** Vocabulary of the statements and sample worlds *)

(** The value is a zero among the numbers. *)
Definition zero_valued (x : pyobj) : bool :=
  match x with
  | PyBool b => negb b
  | PyInt z => (z =? 0)%Z
  | PyFloat f => (f =? 0)%float
  | PyNone | PyStr _ => false
  end.

(** The last entry of a column, rounded; [None] for a column without
    entries. *)
Definition last_rounded (column : list float) : option float :=
  np_round2 <$> last column.

(** The last entry of a column as an integer; 0 for a column without
    entries. *)
Definition last_int (column : list num) : result Z :=
  match last column with
  | Some x => int x
  | None => Ok 0%Z
  end.

(** The state after [yf.Ticker(symbol)] was asked. *)
Definition asked (symbol : string) (s : state) : state :=
  {| cache := cache s; clock_reads := clock_reads s;
     queries := symbol :: queries s |}.



(** The state of a freshly started server. *)
Definition initial : state :=
  {| cache := ∅; clock_reads := 0; queries := [] |}.

(** One day of trading that closed at 22.875. *)
Definition one_day : Frame.t :=
  {| Frame.rows := 1; Frame.Open := [21.5%float]; Frame.High := [23.125%float];
     Frame.Low := [21.25%float]; Frame.Close := [22.875%float];
     Frame.Volume := [Int 1200] |}.

(** A provider with that day of trading and the given [info]. *)
Definition env_of (info : gmap string pyobj) : env :=
  {| time_at := fun n => inject_Z (Z.of_nat n);
     provider := fun _ _ => {| info := Ok info; history := Ok one_day |} |}.

(** A previous close of 20. *)
Definition closed_at_20 : gmap string pyobj :=
  {[ "previousClose" := PyFloat 20 ]}.

(** A previous close of zero. *)
Definition closed_at_0 : gmap string pyobj :=
  {[ "previousClose" := PyFloat 0 ]}.

(** The keys are there and their values are [null]. *)
Definition nulls : gmap string pyobj :=
  {[ "previousClose" := PyNone ]}.

(** [marketCap] and [sector] are there and [null]; no other key is. *)
Definition null_profile : gmap string pyobj :=
  {[ "marketCap" := PyNone; "sector" := PyNone ]}.

End Exact.

(** * Vocabulary of the statements and sample worlds *)

(** The state after one more reading of the clock. *)
Definition tick (s : state) : state :=
  {| cache := cache s; clock_reads := S (clock_reads s);
     queries := queries s; pools := pools s |}.

(** A clock that advances 25 seconds per reading; the provider is down. *)
Definition ttl_env : env :=
  {| time_at := fun n => (inject_Z (Z.of_nat n) * 25)%Q;
     provider := fun _ _ => {| info := Raise ProviderError; history := Ok [] |};
     completion := fun _ n => seq 0 n;
     str_upper := upper |}.

(** The state of a freshly started server. *)
Definition initial : state :=
  {| cache := ∅; clock_reads := 0; queries := []; pools := 0 |}.

(** Some value to store. *)
Definition sample_quote : pyval :=
  PQuote {| Quote.symbol := "TCS.NS"; Quote.name := "Tata Consultancy";
            Quote.price := 3500; Quote.change := 35; Quote.changePercent := 1;
            Quote.open := Some 3470%Q; Quote.high := Some 3510%Q;
            Quote.low := Some 3460%Q; Quote.volume := 120000;
            Quote.marketCap := 0; Quote.sector := "Technology";
            Quote.industry := "N/A" |}.

(** Minutes since local midnight. *)
Definition minute_of_day (now : datetime) : nat := hour now * 60 + minute now.

(** The state after [yf.Ticker(symbol)] was asked. *)
Definition asked (symbol : string) (s : state) : state :=
  {| cache := cache s; clock_reads := clock_reads s;
     queries := symbol :: queries s; pools := pools s |}.

(** The percentage [get_stock_data] computes before rounding. *)
Definition change_percent_of (current_price prev_close : Q) : Q :=
  if truthy_num prev_close
  then ((current_price - prev_close) / prev_close * 100)%Q
  else 0%Q.

(** The dictionary [get_stock_data] builds from [info] and the last row of
    a non-empty history. *)
Definition assembled (symbol : string) (info : Info.t) (b : Bar.t) : Quote.t :=
  let current_price := Bar.Close b in
  let prev_close := default current_price (Info.previousClose info) in
  {| Quote.symbol := symbol;
     Quote.name := default symbol (Info.longName info);
     Quote.price := round2 current_price;
     Quote.change := round2 (current_price - prev_close);
     Quote.changePercent := round2 (change_percent_of current_price prev_close);
     Quote.open := Some (round2 (Bar.Open b));
     Quote.high := Some (round2 (Bar.High b));
     Quote.low := Some (round2 (Bar.Low b));
     Quote.volume := int (Bar.Volume b);
     Quote.marketCap := default 0%Z (Info.marketCap info);
     Quote.sector := default "N/A" (Info.sector info);
     Quote.industry := default "N/A" (Info.industry info) |}.

(** [v] is [x] rounded to two decimal places: a whole number of hundredths,
    at most half a hundredth away from [x]. *)
Definition rounded2 (x v : Q) : Prop :=
  (∃ n : Z, v = (n # 100)%Q) ∧ (Qabs (v - x) <= 1 # 200)%Q.

(** One row of price history. *)
Definition flat_bar : Bar.t :=
  {| Bar.Open := 10; Bar.High := 12; Bar.Low := 9; Bar.Close := 11.5;
     Bar.Volume := 2500 |}.

(** An [info] dictionary with a previous close of zero and nothing else. *)
Definition zero_close_info : Info.t :=
  {| Info.previousClose := Some 0%Q; Info.longName := None;
     Info.marketCap := None; Info.sector := None; Info.industry := None |}.

(** A provider that reports a previous close of zero. *)
Definition zero_close_env : env :=
  {| time_at := fun n => inject_Z (Z.of_nat n);
     provider := fun _ _ => {| info := Ok zero_close_info; history := Ok [flat_bar] |};
     completion := fun _ n => seq 0 n;
     str_upper := upper |}.

(** A provider without any price history. *)
Definition down_env : env :=
  {| time_at := fun n => inject_Z (Z.of_nat n);
     provider := fun _ _ => {| info := Ok zero_close_info; history := Ok [] |};
     completion := fun _ n => seq 0 n;
     str_upper := upper |}.

(** The quotes of the fetches that succeeded, in completion order. *)
Definition successes (fs : list future) : list pyval :=
  omap (fun f => match snd f with Ok (Some d) => Some d | _ => None end) fs.

(** The futures of the fetches that came back absent. *)
Definition failures (fs : list future) : list future :=
  List.filter (fun f => match snd f with Ok None => true | _ => false end) fs.

(** The task of the future ended without raising. *)
Definition returned (f : future) : Prop := ∃ r, snd f = Ok r.

(** A provider that fails for one symbol; tasks finish in reverse order. *)
Definition patchy_env : env :=
  {| time_at := fun n => inject_Z (Z.of_nat n);
     provider := fun _ sym =>
       if String.eqb sym "TCS.NS"
       then {| info := Raise ProviderError; history := Ok [] |}
       else {| info := Ok zero_close_info; history := Ok [flat_bar] |};
     completion := fun _ n => rev (seq 0 n);
     str_upper := upper |}.

(** [s] ends with [suffix]. *)
Definition ends_with (s suffix : string) : Prop := ∃ p, s = p +:+ suffix.

(** [sub] occurs in [s]. *)
Definition is_substring (sub s : string) : Prop := ∃ a b, s = a +:+ sub +:+ b.

(** Every character of the string is an ASCII one. *)
Fixpoint ascii_only (s : string) : bool :=
  match s with
  | EmptyString => true
  | String c s' => (nat_of_ascii c <? 128)%nat && ascii_only s'
  end.

(** The interpreter's [upper] on ASCII strings: small letters become
    capitals and nothing else changes. It is so in every Python. *)
Definition ascii_upper (e : env) : Prop :=
  ∀ x, ascii_only x = true → str_upper e x = upper x.

(** Order of decorated elements: by key. *)
Definition key_le {A} (p1 p2 : Q * A) : Prop := (fst p1 <= fst p2)%Q.

(** A decorated element carries the key of its own payload. *)
Definition decorated {A} (g : A → Q) (p : Q * A) : Prop := fst p = g (snd p).

(** The dictionary is one that [get_stock_data] builds. *)
Definition is_quote (d : pyval) : Prop := ∃ q, d = PQuote q.

(** Every value stored under a key that starts with ["stock_"] is a quote.
    This holds of the empty cache and every route keeps it
    ([reachable_wf]). *)
Definition cache_wf (c : gmap string (pyval * Q)) : Prop :=
  map_Forall (fun k (vt : pyval * Q) =>
                String.prefix "stock_" k = true → is_quote (fst vt)) c.

(** The [changePercent] of a quote or an index row. *)
Definition cp_of (d : pyval) : Q :=
  match d with
  | PQuote q => Quote.changePercent q
  | PIndex i => IndexRow.changePercent i
  | PResponse _ => 0
  end.

(** A provider whose previous close moves from call to call, so that some
    quotes are up and some are down. *)
Definition lively_env : env :=
  {| time_at := fun n => inject_Z (Z.of_nat n);
     provider := fun n _ =>
       {| info := Ok {| Info.previousClose := Some (inject_Z (Z.of_nat n));
                        Info.longName := None; Info.marketCap := None;
                        Info.sector := None; Info.industry := None |};
          history := Ok [{| Bar.Open := 10; Bar.High := 20; Bar.Low := 5;
                            Bar.Close := 15; Bar.Volume := 900 |}] |};
     completion := fun _ n => rev (seq 0 n);
     str_upper := upper |}.

(** The computation keeps the invariant of the cache. *)
Definition preserves_wf {A} (c : M A) : Prop :=
  ∀ e s, cache_wf (cache s) → cache_wf (cache (snd (c e s))).

(** The requests the server answers through the cache. *)
Inductive request :=
| Indices | Stocks | Stock (symbol : string) | Gainers | Losers | Search (q : string).

(** Serving a request: only the state matters here. *)
Definition serve (r : request) (e : env) (s : state) : state :=
  match r with
  | Indices => snd (get_indices e s)
  | Stocks => snd (get_stocks e s)
  | Stock symbol => snd (get_single_stock symbol e s)
  | Gainers => snd (get_gainers e s)
  | Losers => snd (get_losers e s)
  | Search q => snd (search_stocks q e s)
  end.

(** ** Vocabulary and sample worlds of the further properties *)

(** One row of price history that closes at 15. *)
Definition rising_bar : Bar.t :=
  {| Bar.Open := 10; Bar.High := 20; Bar.Low := 5; Bar.Close := 15;
     Bar.Volume := 900 |}.

(** An [info] dictionary with every key the program reads. *)
Definition rising_info : Info.t :=
  {| Info.previousClose := Some 10%Q; Info.longName := Some "Infosys Limited";
     Info.marketCap := Some 7000000%Z; Info.sector := Some "Technology";
     Info.industry := Some "IT Services" |}.

(** A provider whose quotes are all up by half. *)
Definition rising_env : env :=
  {| time_at := fun n => inject_Z (Z.of_nat n);
     provider := fun _ _ => {| info := Ok rising_info; history := Ok [rising_bar] |};
     completion := fun _ n => seq 0 n;
     str_upper := upper |}.

(** The four cached list views with their response keys. *)
Definition views : list (string * M pyval) :=
  [("indices_response", get_indices); ("stocks_response", get_stocks);
   ("gainers_response", get_gainers); ("losers_response", get_losers)].

(** A computation that, when it returns, has stored what it returns under
    [key], stamped with the last reading of the clock. *)
Definition stores (key : string) (c : M pyval) : Prop :=
  ∀ e s v s', c e s = (Ok v, s') →
    ∃ n, clock_reads s' = S n ∧ cache s' !! key = Some (v, time_at e n).

(** A computation keeps an invariant [I] of the cache. *)
Definition keeps (I : gmap string (pyval * Q) → Prop) {A} (c : M A) : Prop :=
  ∀ e s, I (cache s) → I (cache (snd (c e s))).

(** [I] survives the store of a quote assembled for [symbol] under its own
    key. *)
Definition takes_quotes (I : gmap string (pyval * Q) → Prop) (symbol : string) : Prop :=
  ∀ c inf b t, I c →
    I (<["stock_" +:+ symbol := (PQuote (assembled symbol inf b), t)]> c).

(** [I] survives the store of a response under [key]. *)
Definition takes_responses (I : gmap string (pyval * Q) → Prop) (key : string) : Prop :=
  ∀ c r t, I c → I (<[key := (PResponse r, t)]> c).

(** Under the key ["stock_" + sym] sits a quote whose symbol is [sym]. *)
Definition cache_symbols (c : gmap string (pyval * Q)) : Prop :=
  map_Forall (fun k (vt : pyval * Q) =>
                ∀ sym, k = "stock_" +:+ sym →
                       ∃ q, fst vt = PQuote q ∧ Quote.symbol q = sym) c.

(** The symbols the list views and search fetch. *)
Definition universe : list string := (snd <$> NSE_INDICES) ++ NIFTY_50_STOCKS.

(** The keys these routes can write. *)
Definition known_keys : list string :=
  (fst <$> views) ++ ((fun sym => "stock_" +:+ sym) <$> universe).

(** Every key of the cache is a known one. *)
Definition cache_known (c : gmap string (pyval * Q)) : Prop :=
  map_Forall (fun k (_ : pyval * Q) => k ∈ known_keys) c.

(** Every route but the single-stock lookup. *)
Definition list_request (r : request) : Prop :=
  match r with
  | Stock _ => False
  | _ => True
  end.

(** An index row carries the figures of the quote it was made from, and the
    name the table has for the quote's symbol, or else the symbol. *)
Definition mirrors (q : Quote.t) (i : IndexRow.t) : Prop :=
  IndexRow.symbol i = Quote.symbol q ∧
  IndexRow.price i = Quote.price q ∧
  IndexRow.change i = Quote.change q ∧
  IndexRow.changePercent i = Quote.changePercent q ∧
  IndexRow.name i = default (Quote.symbol q) (symbol_to_name !! Quote.symbol q).

(** The symbol has an entry that no reading of the clock finds expired. *)
Definition always_fresh (e : env) (s : state) (symbol : string) : Prop :=
  ∃ d ts, cache s !! ("stock_" +:+ symbol) = Some (d, ts) ∧
          ∀ n, (time_at e n - ts < CACHE_TTL)%Q.

(** A clock that stands still; the provider is down. *)
Definition frozen_env : env :=
  {| time_at := fun _ => 0%Q;
     provider := fun _ _ => {| info := Raise ProviderError; history := Ok [] |};
     completion := fun _ n => seq 0 n;
     str_upper := upper |}.

(** A state with one quote in the cache. *)
Definition warm : state :=
  {| cache := {[ "stock_TCS.NS" := (sample_quote, 0%Q) ]};
     clock_reads := 0; queries := []; pools := 0 |}.

(** * Properties *)

(** ** The cache *)

Lemma get_cached_run key e s :
  get_cached key e s =
  match cache s !! key with
  | Some (data, timestamp) =>
      if Qlt_le_dec (time_at e (clock_reads s) - timestamp) CACHE_TTL
      then (Ok (Some data), tick s) else (Ok None, tick s)
  | None => (Ok None, s)
  end.
Proof.
  unfold get_cached, bind, read_cache, time_time, ret, tick; simpl.
  destruct (cache s !! key) as [[d ts]|]; [|reflexivity].
  destruct (Qlt_le_dec _ _); reflexivity.
Qed.

Lemma set_cached_run key data e s :
  set_cached key data e s =
  (Ok tt,
   {| cache := <[key := (data, time_at e (clock_reads s))]> (cache s);
      clock_reads := S (clock_reads s); queries := queries s; pools := pools s |}).
Proof. reflexivity. Qed.

(** Reading never changes what the cache holds, nor what was asked of the
    provider or the pools. *)
Lemma get_cached_frame key e s :
  let s' := snd (get_cached key e s) in
  cache s' = cache s ∧ queries s' = queries s ∧ pools s' = pools s ∧
  (clock_reads s ≤ clock_reads s')%nat.
Proof.
  rewrite get_cached_run.
  destruct (cache s !! key) as [[d ts]|]; simpl; [|auto].
  destruct (Qlt_le_dec _ _); simpl; auto.
Qed.

Lemma get_cached_ok key e s : ∃ r, fst (get_cached key e s) = Ok r.
Proof.
  rewrite get_cached_run.
  destruct (cache s !! key) as [[d ts]|]; [|eauto].
  destruct (Qlt_le_dec _ _); eauto.
Qed.

Lemma run_op_other k o e s :
  ¬ writes k o → cache (snd (run_op o e s)) !! k = cache s !! k.
Proof.
  destruct o as [key|key data]; unfold run_op, writes; intros Hw.
  - unfold bind. pose proof (get_cached_frame key e s) as [Hc _].
    destruct (get_cached key e s) as [[r|x] s']; simpl in *; by rewrite Hc.
  - rewrite set_cached_run; simpl. by rewrite lookup_insert_ne.
Qed.

Lemma run_op_ok o e s : fst (run_op o e s) = Ok tt.
Proof.
  destruct o as [key|key data]; unfold run_op; [|reflexivity].
  unfold bind. destruct (get_cached_ok key e s) as [r Hr].
  destruct (get_cached key e s) as [[r'|x] s']; simpl in *; congruence.
Qed.

Lemma run_ops_other k ops : ∀ e s,
  Forall (fun o => ¬ writes k o) ops →
  cache (snd (run_ops ops e s)) !! k = cache s !! k.
Proof.
  induction ops as [|o ops IH]; intros e s Hall; [reflexivity|].
  inversion Hall as [|? ? Ho Hrest]; subst. simpl. unfold bind.
  pose proof (run_op_ok o e s) as Hok. pose proof (run_op_other k o e s Ho) as Hk.
  destruct (run_op o e s) as [[[]|x] s']; simpl in *; [|discriminate].
  rewrite IH; assumption.
Qed.

(** C1. After [set_cached k v], and whatever cache traffic follows that
    does not store under [k] again, [get_cached k] returns [v] while less
    than [CACHE_TTL] = 60 seconds have passed on the clock since the store,
    and returns [None] once 60 seconds or more have passed. *)
Theorem ttl_correctness (e : env) (s : state) (k : string) (v : pyval)
    (ops : list cache_op) :
  Forall (fun o => ¬ writes k o) ops →
  let t_put := time_at e (clock_reads s) in
  let s1 := snd ((let! _ := set_cached k v in run_ops ops) e s) in
  let t_get := time_at e (clock_reads s1) in
  ((t_get - t_put < CACHE_TTL)%Q → fst (get_cached k e s1) = Ok (Some v)) ∧
  ((CACHE_TTL <= t_get - t_put)%Q → fst (get_cached k e s1) = Ok None).
Proof.
  intros Hops t_put s1 t_get.
  assert (Hk : cache s1 !! k = Some (v, t_put)).
  { subst s1. unfold bind. rewrite set_cached_run.
    rewrite run_ops_other by assumption. simpl. apply lookup_insert_eq. }
  rewrite get_cached_run, Hk. fold t_get.
  split; intros Ht; destruct (Qlt_le_dec (t_get - t_put) CACHE_TTL) as [Hlt|Hle];
    try reflexivity; exfalso; unfold CACHE_TTL in *; lra.
Qed.

Lemma ttl_correctness_witness :
  fst (get_cached "stock_TCS.NS" ttl_env
         (snd ((let! _ := set_cached "stock_TCS.NS" sample_quote in
                run_ops [OpSet "stock_INFY.NS" sample_quote]) ttl_env initial)))
  = Ok (Some sample_quote).
Proof.
  apply (ttl_correctness ttl_env initial "stock_TCS.NS" sample_quote
           [OpSet "stock_INFY.NS" sample_quote]).
  - repeat constructor. simpl. discriminate.
  - vm_compute. reflexivity.
Defined.

(** ** Market status *)

(** C6. For a valid wall-clock time, [isOpen] holds exactly on Monday to
    Friday between 09:15 and 15:30, both ends included; Saturday 10:00,
    Monday 09:14 and Monday 15:31 are closed, Monday 09:15 and Monday 15:30
    are open. *)
Theorem market_status_open (now : datetime) :
  (minute now < 60)%nat →
  (MarketStatus.isOpen (market_status now) = true ↔
     (weekday now ≤ 4)%nat ∧
     (9 * 60 + 15 ≤ minute_of_day now)%nat ∧ (minute_of_day now ≤ 15 * 60 + 30)%nat) ∧
  MarketStatus.isOpen (market_status {| weekday := 5; hour := 10; minute := 0 |}) = false ∧
  MarketStatus.isOpen (market_status {| weekday := 0; hour := 9; minute := 14 |}) = false ∧
  MarketStatus.isOpen (market_status {| weekday := 0; hour := 9; minute := 15 |}) = true ∧
  MarketStatus.isOpen (market_status {| weekday := 0; hour := 15; minute := 30 |}) = true ∧
  MarketStatus.isOpen (market_status {| weekday := 0; hour := 15; minute := 31 |}) = false.
Proof.
  intros Hmin. split; [|repeat split; reflexivity].
  unfold market_status, minute_of_day; cbn [MarketStatus.isOpen].
  rewrite andb_true_iff, !orb_true_iff, !andb_true_iff.
  rewrite !Nat.ltb_lt, !Nat.leb_le, !Nat.eqb_eq. lia.
Qed.

Lemma market_status_open_witness :
  MarketStatus.isOpen (market_status {| weekday := 2; hour := 12; minute := 0 |}) = true.
Proof.
  destruct (market_status_open {| weekday := 2; hour := 12; minute := 0 |})
    as [Hiff _]; [simpl; lia|].
  apply Hiff. unfold minute_of_day; simpl; lia.
Defined.

(** ** The quote fetcher *)

Lemma empty_fmap {A B} (f : A → B) (l : list A) : empty (f <$> l) = empty l.
Proof. destruct l; reflexivity. Qed.

Lemma empty_last {A} (l : list A) (x : A) : last l = Some x → empty l = false.
Proof. destruct l; [discriminate | reflexivity]. Qed.

Lemma iloc_last_fmap {A B} (f : A → B) (l : list A) (x : A) :
  last l = Some x → iloc_last (f <$> l) = Ok (f x).
Proof. intros H. unfold iloc_last. rewrite fmap_last, H. reflexivity. Qed.

Lemma get_stock_data_hit symbol e s d s1 :
  get_cached ("stock_" +:+ symbol) e s = (Ok (Some d), s1) →
  get_stock_data symbol e s = (Ok (Some d), s1).
Proof. intros H. unfold get_stock_data, bind. rewrite H. reflexivity. Qed.

(** A miss, then a provider that raises or has no price history: [None],
    and the cache is as it was. *)
Lemma get_stock_data_absent symbol e s s1 :
  get_cached ("stock_" +:+ symbol) e s = (Ok None, s1) →
  (∃ x, info (provider e (length (queries s1)) symbol) = Raise x) ∨
  (∃ x, history (provider e (length (queries s1)) symbol) = Raise x) ∨
  history (provider e (length (queries s1)) symbol) = Ok [] →
  get_stock_data symbol e s = (Ok None, asked symbol s1).
Proof.
  intros Hmiss Hfail. unfold get_stock_data, bind at 1. rewrite Hmiss.
  unfold try_except, bind, yf_Ticker, lift, ret. fold (asked symbol s1).
  destruct (info (provider e (length (queries s1)) symbol)) as [inf|x];
    [|reflexivity].
  destruct (history (provider e (length (queries s1)) symbol)) as [hist|x];
    [|reflexivity].
  destruct Hfail as [[x Hx]|[[x Hx]|Hx]]; try discriminate.
  injection Hx as ->. reflexivity.
Qed.

(** A miss, then a provider with a price history: the assembled quote is
    stored under ["stock_" + symbol] and returned. *)
Lemma get_stock_data_fresh symbol e s s1 inf hist b :
  get_cached ("stock_" +:+ symbol) e s = (Ok None, s1) →
  info (provider e (length (queries s1)) symbol) = Ok inf →
  history (provider e (length (queries s1)) symbol) = Ok hist →
  last hist = Some b →
  get_stock_data symbol e s =
  (Ok (Some (PQuote (assembled symbol inf b))),
   snd (set_cached ("stock_" +:+ symbol) (PQuote (assembled symbol inf b)) e
          (asked symbol s1))).
Proof.
  intros Hmiss Hinfo Hhist Hlast. unfold get_stock_data, bind at 1. rewrite Hmiss.
  unfold try_except, bind, yf_Ticker, lift, ret. fold (asked symbol s1).
  rewrite Hinfo, Hhist, (empty_last _ _ Hlast).
  rewrite !empty_fmap, (empty_last _ _ Hlast); simpl negb; cbv iota.
  rewrite !(iloc_last_fmap _ _ _ Hlast). unfold rbind.
  assert (Hcp :
    (if truthy_num (default (Bar.Close b) (Info.previousClose inf))
     then match divide (Bar.Close b - default (Bar.Close b) (Info.previousClose inf))
                  (default (Bar.Close b) (Info.previousClose inf)) with
          | Ok d => Ok (d * 100)%Q
          | Raise x => Raise x
          end
     else Ok 0%Q) =
    Ok (change_percent_of (Bar.Close b) (default (Bar.Close b) (Info.previousClose inf)))).
  { unfold change_percent_of, truthy_num, divide.
    destruct (Qeq_bool _ 0); reflexivity. }
  rewrite Hcp. rewrite set_cached_run. reflexivity.
Qed.

(** ** Rounding *)

Lemma round_half_even_near (y : Q) :
  (Qabs (inject_Z (round_half_even y) - y) <= 1 # 2)%Q.
Proof.
  unfold round_half_even.
  pose proof (Qfloor_le y) as Hlo. pose proof (Qlt_floor y) as Hhi.
  rewrite inject_Z_plus in Hhi. change (inject_Z 1) with 1%Q in Hhi.
  set (f := Qfloor y) in *.
  apply Qabs_Qle_condition.
  destruct (Qcompare_spec (y - inject_Z f) (1 # 2)) as [Heq|Hlt|Hgt].
  - destruct (Z.even f); [|rewrite inject_Z_plus; change (inject_Z 1) with 1%Q];
      split; lra.
  - split; lra.
  - rewrite inject_Z_plus. change (inject_Z 1) with 1%Q. split; lra.
Qed.

Lemma round2_rounded2 (x : Q) : rounded2 x (round2 x).
Proof.
  split; [eexists; reflexivity|]. unfold round2.
  pose proof (round_half_even_near (x * 100)) as H.
  apply Qabs_Qle_condition in H. apply Qabs_Qle_condition.
  assert (Hv : ((round_half_even (x * 100) # 100) * 100 ==
                inject_Z (round_half_even (x * 100)))%Q).
  { unfold Qeq, Qmult, inject_Z; cbn [Qnum Qden]. lia. }
  set (r := inject_Z (round_half_even (x * 100))) in *.
  set (v := (round_half_even (x * 100) # 100)%Q) in *.
  split; lra.
Qed.

(** ** The quote, digit for digit *)

Lemma exact_column_rounded (column : list float) :
  (if negb (empty column)
   then let? x := iloc_last column in Ok (Some (Exact.np_round2 x))
   else Ok None) = Ok (Exact.last_rounded column).
Proof.
  unfold Exact.last_rounded, iloc_last. destruct column as [|x l]; [reflexivity|].
  cbn [empty negb]. destruct (last (x :: l)) eqn:H; [reflexivity|].
  by apply last_None in H.
Qed.

Lemma exact_column_volume (column : list Exact.num) :
  (if negb (empty column) then let? x := iloc_last column in Exact.int x
   else Ok 0%Z) = Exact.last_int column.
Proof.
  unfold Exact.last_int, iloc_last. destruct column as [|x l]; [reflexivity|].
  cbn [empty negb]. destruct (last (x :: l)) eqn:H; [reflexivity|].
  by apply last_None in H.
Qed.

(** A miss, then a provider with a price history: the subtraction of line
    100 and the [int] of line 112 decide. With a number for the previous
    close and a last volume that is one, the quote is built, stored and
    returned; with anything else the [try] is left and the result is
    [None]. *)
Lemma exact_get_stock_data_fresh symbol e s s1 inf h cur :
  Exact.get_cached ("stock_" +:+ symbol) e s = (Ok None, s1) →
  Exact.info (Exact.provider e (length (Exact.queries s1)) symbol) = Ok inf →
  Exact.history (Exact.provider e (length (Exact.queries s1)) symbol) = Ok h →
  Exact.Frame.rows h ≠ 0 →
  last (Exact.Frame.Close h) = Some cur →
  let prev_close := default (Exact.PyFloat cur) (inf !! "previousClose") in
  Exact.get_stock_data symbol e s =
  match Exact.number prev_close, Exact.last_int (Exact.Frame.Volume h) with
  | Ok divisor, Ok volume =>
      let change := (cur - divisor)%float in
      let quote := {|
        Exact.Quote.symbol := symbol;
        Exact.Quote.name := default (Exact.PyStr symbol) (inf !! "longName");
        Exact.Quote.price := Exact.np_round2 cur;
        Exact.Quote.change := Exact.np_round2 change;
        Exact.Quote.changePercent :=
          Exact.round2 (if Exact.truthy prev_close
                        then Exact.Float64 (change / divisor * 100)%float
                        else Exact.Int 0);
        Exact.Quote.open := Exact.last_rounded (Exact.Frame.Open h);
        Exact.Quote.high := Exact.last_rounded (Exact.Frame.High h);
        Exact.Quote.low := Exact.last_rounded (Exact.Frame.Low h);
        Exact.Quote.volume := volume;
        Exact.Quote.marketCap := default (Exact.PyInt 0) (inf !! "marketCap");
        Exact.Quote.sector := default (Exact.PyStr "N/A") (inf !! "sector");
        Exact.Quote.industry := default (Exact.PyStr "N/A") (inf !! "industry")
      |} in
      (Ok (Some quote),
       snd (Exact.set_cached ("stock_" +:+ symbol) quote e (Exact.asked symbol s1)))
  | _, _ => (Ok None, Exact.asked symbol s1)
  end.
Proof.
  intros Hmiss Hinfo Hhist Hrows Hlast prev_close.
  unfold Exact.get_stock_data, Exact.bind at 1. rewrite Hmiss.
  unfold Exact.try_except, Exact.bind, Exact.yf_Ticker, Exact.lift, Exact.ret.
  fold (Exact.asked symbol s1). rewrite Hinfo, Hhist.
  unfold Exact.frame_empty. destruct (Nat.eqb_spec (Exact.Frame.rows h) 0); [done|].
  unfold iloc_last at 1. rewrite Hlast. fold prev_close.
  destruct (Exact.number prev_close) as [divisor|x]; [|reflexivity].
  rewrite !exact_column_rounded, exact_column_volume.
  by destruct (Exact.last_int (Exact.Frame.Volume h)).
Qed.

Lemma exact_truthy_number (x : Exact.pyobj) (p : float) :
  Exact.number x = Ok p → Exact.truthy x = negb (Exact.zero_valued x).
Proof. destruct x as [|[]| | |]; try discriminate; reflexivity. Qed.

(** C2. On a miss with a provider that has a price history, what the
    fetch yields depends on the previous close, which is the provider's
    [previousClose] or, without that key, the current price. When it is a
    number (and the last volume is one), the fetch yields a quote (no
    fault: a fault inside the [try] would have given [None]): its
    [changePercent] is the integer 0 when the previous close is a zero, and
    otherwise [(currentPrice - previousClose) / previousClose * 100],
    computed in binary64 and rounded to two decimals by numpy. When it is
    no number, as [None] and strings are, line 100 raises before the guard
    of line 101 is reached, and the fetch yields [None]. *)
Theorem change_percent_zero_guard (e : Exact.env) (s s1 : Exact.state)
    (symbol : string) (inf : gmap string Exact.pyobj) (h : Exact.Frame.t)
    (current_price : float) :
  Exact.get_cached ("stock_" +:+ symbol) e s = (Ok None, s1) →
  Exact.info (Exact.provider e (length (Exact.queries s1)) symbol) = Ok inf →
  Exact.history (Exact.provider e (length (Exact.queries s1)) symbol) = Ok h →
  Exact.Frame.rows h ≠ 0 →
  last (Exact.Frame.Close h) = Some current_price →
  let prev_close := default (Exact.PyFloat current_price) (inf !! "previousClose") in
  (∀ p volume,
     Exact.number prev_close = Ok p →
     Exact.last_int (Exact.Frame.Volume h) = Ok volume →
     ∃ q, fst (Exact.get_stock_data symbol e s) = Ok (Some q) ∧
       (Exact.zero_valued prev_close = true →
          Exact.truthy prev_close = false ∧
          Exact.Quote.changePercent q = Exact.Int 0) ∧
       (Exact.zero_valued prev_close = false →
          Exact.Quote.changePercent q =
          Exact.Float64 (Exact.np_round2 ((current_price - p) / p * 100)%float))) ∧
  (∀ x, Exact.number prev_close = Raise x →
     fst (Exact.get_stock_data symbol e s) = Ok None).
Proof.
  intros Hmiss Hinfo Hhist Hrows Hlast prev_close.
  pose proof (exact_get_stock_data_fresh _ _ _ _ _ _ _ Hmiss Hinfo Hhist Hrows Hlast)
    as Hrun. cbv zeta in Hrun. fold prev_close in Hrun.
  split.
  - intros p volume Hp Hvol. rewrite Hp, Hvol in Hrun. rewrite Hrun.
    eexists; split; [reflexivity|]. cbn [Exact.Quote.changePercent].
    rewrite (exact_truthy_number _ _ Hp).
    split; intros ->; [split|]; reflexivity.
  - intros x Hx. rewrite Hx in Hrun. by rewrite Hrun.
Qed.

Lemma change_percent_zero_guard_witness :
  (∃ q, fst (Exact.get_stock_data "INFY.NS" (Exact.env_of Exact.closed_at_20)
               Exact.initial) = Ok (Some q) ∧
        Exact.Quote.changePercent q = Exact.Float64 14.37) ∧
  (∃ q, fst (Exact.get_stock_data "INFY.NS" (Exact.env_of Exact.closed_at_0)
               Exact.initial) = Ok (Some q) ∧
        Exact.Quote.changePercent q = Exact.Int 0).
Proof.
  split.
  - destruct (change_percent_zero_guard (Exact.env_of Exact.closed_at_20)
                Exact.initial Exact.initial "INFY.NS" Exact.closed_at_20
                Exact.one_day 22.875%float) as [Hnum _];
      [reflexivity | reflexivity | reflexivity | discriminate | reflexivity |].
    destruct (Hnum 20%float 1200%Z) as (q & Hq & _ & Hcp);
      [reflexivity | reflexivity |].
    exists q. split; [exact Hq|]. rewrite Hcp; reflexivity.
  - destruct (change_percent_zero_guard (Exact.env_of Exact.closed_at_0)
                Exact.initial Exact.initial "INFY.NS" Exact.closed_at_0
                Exact.one_day 22.875%float) as [Hnum _];
      [reflexivity | reflexivity | reflexivity | discriminate | reflexivity |].
    destruct (Hnum 0%float 1200%Z) as (q & Hq & Hzero & _);
      [reflexivity | reflexivity |].
    exists q. split; [exact Hq|]. apply Hzero. reflexivity.
Defined.

(** C2, where the claim fails: a provider whose [previousClose] is there
    and is [null]. The value is falsy, yet the fetch yields no quote with a
    [changePercent] of 0: it yields [None]. *)
Lemma zero_guard_null :
  Exact.nulls !! "previousClose" = Some Exact.PyNone ∧
  Exact.truthy Exact.PyNone = false ∧
  fst (Exact.get_stock_data "INFY.NS" (Exact.env_of Exact.nulls) Exact.initial)
  = Ok None ∧
  ¬ ∃ q, fst (Exact.get_stock_data "INFY.NS" (Exact.env_of Exact.nulls)
                Exact.initial) = Ok (Some q) ∧
         Exact.Quote.changePercent q = Exact.Int 0.
Proof.
  split; [reflexivity|]. split; [reflexivity|]. split; [reflexivity|].
  intros (q & Hq & _). discriminate Hq.
Qed.

(** C7. The quote assembled on provider success, at any previous close
    and any last volume that are numbers. Price, change, changePercent,
    open, high and low are rounded to two decimals the way numpy rounds a
    binary64 number: times 100, to the nearest integer with ties to even,
    divided by 100, each step in binary64. So the double nearest to 2.675
    becomes 2.68 and the one nearest to 2.665 becomes 2.66, and a NaN stays
    one. [changePercent] is the integer 0 at a previous close of zero; open,
    high and low are [None] when their column has no entry. The volume is
    the [int] of the last entry of its column, which cuts a [numpy.float64]
    off towards zero, and 0 when the column has no entry. [marketCap],
    [sector], [industry] and the name are the provider's values when the key
    is there, whatever they are, and 0, ["N/A"], ["N/A"] and the symbol when
    it is not. *)
Theorem quote_fields (e : Exact.env) (s s1 : Exact.state) (symbol : string)
    (inf : gmap string Exact.pyobj) (h : Exact.Frame.t)
    (current_price p : float) (vol : Z) :
  Exact.get_cached ("stock_" +:+ symbol) e s = (Ok None, s1) →
  Exact.info (Exact.provider e (length (Exact.queries s1)) symbol) = Ok inf →
  Exact.history (Exact.provider e (length (Exact.queries s1)) symbol) = Ok h →
  Exact.Frame.rows h ≠ 0 →
  last (Exact.Frame.Close h) = Some current_price →
  let prev_close := default (Exact.PyFloat current_price) (inf !! "previousClose") in
  Exact.number prev_close = Ok p →
  Exact.last_int (Exact.Frame.Volume h) = Ok vol →
  (∃ q, fst (Exact.get_stock_data symbol e s) = Ok (Some q) ∧
    Exact.Quote.symbol q = symbol ∧
    Exact.Quote.price q = Exact.np_round2 current_price ∧
    Exact.Quote.change q = Exact.np_round2 (current_price - p)%float ∧
    Exact.Quote.changePercent q =
      (if Exact.zero_valued prev_close then Exact.Int 0
       else Exact.Float64 (Exact.np_round2 ((current_price - p) / p * 100)%float)) ∧
    Exact.Quote.open q = Exact.np_round2 <$> last (Exact.Frame.Open h) ∧
    Exact.Quote.high q = Exact.np_round2 <$> last (Exact.Frame.High h) ∧
    Exact.Quote.low q = Exact.np_round2 <$> last (Exact.Frame.Low h) ∧
    Exact.Quote.volume q = vol ∧
    (Exact.Frame.Volume h = [] → vol = 0%Z) ∧
    (∀ z, last (Exact.Frame.Volume h) = Some (Exact.Int z) → vol = z) ∧
    (∀ f, last (Exact.Frame.Volume h) = Some (Exact.Float64 f) →
          Exact.int (Exact.Float64 f) = Ok vol) ∧
    Exact.Quote.marketCap q = default (Exact.PyInt 0) (inf !! "marketCap") ∧
    Exact.Quote.sector q = default (Exact.PyStr "N/A") (inf !! "sector") ∧
    Exact.Quote.industry q = default (Exact.PyStr "N/A") (inf !! "industry") ∧
    Exact.Quote.name q = default (Exact.PyStr symbol) (inf !! "longName")) ∧
  Exact.np_round2 2.675 = 2.68%float ∧
  Exact.np_round2 2.665 = 2.66%float ∧
  Exact.np_round2 (-0.125) = (-0.12)%float ∧
  Exact.np_round2 14.374999999999998 = 14.37%float ∧
  is_nan (Exact.np_round2 nan) = true ∧
  Exact.int (Exact.Float64 1200.75) = Ok 1200%Z ∧
  Exact.int (Exact.Float64 (-0.5)) = Ok 0%Z ∧
  Exact.int (Exact.Float64 nan) = Raise ValueError.
Proof.
  intros Hmiss Hinfo Hhist Hrows Hlast prev_close Hp Hvol.
  pose proof (exact_get_stock_data_fresh _ _ _ _ _ _ _ Hmiss Hinfo Hhist Hrows Hlast)
    as Hrun. cbv zeta in Hrun. fold prev_close in Hrun. rewrite Hp, Hvol in Hrun.
  split; [|by repeat split].
  rewrite Hrun. eexists; split; [reflexivity|]. simpl.
  rewrite (exact_truthy_number _ _ Hp). unfold Exact.last_int in Hvol.
  repeat split.
  - by destruct (Exact.zero_valued prev_close).
  - intros Hnil. rewrite Hnil in Hvol. by injection Hvol.
  - intros z Hz. rewrite Hz in Hvol. by injection Hvol.
  - intros f Hf. by rewrite Hf in Hvol.
Qed.

Lemma quote_fields_witness :
  ∃ q, fst (Exact.get_stock_data "INFY.NS" (Exact.env_of Exact.closed_at_20)
              Exact.initial) = Ok (Some q) ∧
       Exact.Quote.price q = 22.88%float ∧
       Exact.Quote.change q = 2.88%float ∧
       Exact.Quote.open q = Some 21.5%float ∧
       Exact.Quote.volume q = 1200%Z ∧
       Exact.Quote.marketCap q = Exact.PyInt 0 ∧
       Exact.Quote.sector q = Exact.PyStr "N/A" ∧
       Exact.Quote.name q = Exact.PyStr "INFY.NS".
Proof.
  destruct (quote_fields (Exact.env_of Exact.closed_at_20)
              Exact.initial Exact.initial "INFY.NS" Exact.closed_at_20
              Exact.one_day 22.875%float 20%float 1200%Z)
    as [(q & Hq & _ & Hprice & Hchange & _ & Hopen & _ & _ & Hvol & _ & _ & _
           & Hcap & Hsec & _ & Hname) _];
    [reflexivity | reflexivity | reflexivity | discriminate | reflexivity
    | reflexivity | reflexivity |].
  exists q. split; [exact Hq|].
  rewrite Hprice, Hchange, Hopen, Hvol, Hcap, Hsec, Hname.
  repeat split; reflexivity.
Defined.

(** C7, where the claim fails: a provider whose [marketCap] and [sector]
    are there and are [null]. The quote is built, and its [marketCap] is no
    integer and its [sector] is not ["N/A"]: both are [None]. *)
Lemma quote_fields_null_profile :
  ∃ q, fst (Exact.get_stock_data "INFY.NS" (Exact.env_of Exact.null_profile)
              Exact.initial) = Ok (Some q) ∧
       Exact.Quote.marketCap q = Exact.PyNone ∧
       Exact.Quote.sector q = Exact.PyNone ∧
       (¬ ∃ z, Exact.Quote.marketCap q = Exact.PyInt z) ∧
       Exact.Quote.sector q ≠ Exact.PyStr "N/A".
Proof.
  eexists. split; [reflexivity|]. split; [reflexivity|]. split; [reflexivity|].
  split; [intros [z Hz]|intros Hs]; discriminate.
Qed.

(** The three ways a call of [get_stock_data] can go. *)
Lemma get_stock_data_cases symbol e s :
  (∃ d s1, get_cached ("stock_" +:+ symbol) e s = (Ok (Some d), s1) ∧
           get_stock_data symbol e s = (Ok (Some d), s1)) ∨
  (∃ s1, get_cached ("stock_" +:+ symbol) e s = (Ok None, s1) ∧
         get_stock_data symbol e s = (Ok None, asked symbol s1)) ∨
  (∃ s1 inf b, get_cached ("stock_" +:+ symbol) e s = (Ok None, s1) ∧
     get_stock_data symbol e s =
     (Ok (Some (PQuote (assembled symbol inf b))),
      snd (set_cached ("stock_" +:+ symbol) (PQuote (assembled symbol inf b)) e
             (asked symbol s1)))).
Proof.
  destruct (get_cached_ok ("stock_" +:+ symbol) e s) as [r Hr].
  destruct (get_cached ("stock_" +:+ symbol) e s) as [r' s1] eqn:Hget.
  simpl in Hr; subst r'. destruct r as [d|].
  { left. exists d, s1. split; [reflexivity|]. by apply get_stock_data_hit. }
  right.
  destruct (info (provider e (length (queries s1)) symbol)) as [inf|x] eqn:Hinfo.
  2:{ left. exists s1. split; [reflexivity|].
      apply get_stock_data_absent; eauto. }
  destruct (history (provider e (length (queries s1)) symbol)) as [hist|x] eqn:Hhist.
  2:{ left. exists s1. split; [reflexivity|].
      apply get_stock_data_absent; eauto. }
  destruct (last hist) as [b|] eqn:Hlast.
  - right. exists s1, inf, b. split; [reflexivity|].
    by apply (get_stock_data_fresh _ _ _ _ inf hist b).
  - apply last_None in Hlast; subst hist.
    left. exists s1. split; [reflexivity|].
    apply get_stock_data_absent; eauto.
Qed.

(** [get_stock_data] never raises. *)
Lemma get_stock_data_total symbol e s : ∃ r, fst (get_stock_data symbol e s) = Ok r.
Proof.
  destruct (get_stock_data_cases symbol e s)
    as [(d & s1 & _ & H)|[(s1 & _ & H)|(s1 & inf & b & _ & H)]];
    rewrite H; eauto.
Qed.

(** After a miss the provider is asked, whatever it answers. *)
Lemma get_stock_data_miss_asks symbol e s s1 :
  get_cached ("stock_" +:+ symbol) e s = (Ok None, s1) →
  queries (snd (get_stock_data symbol e s)) = symbol :: queries s.
Proof.
  intros Hmiss.
  pose proof (get_cached_frame ("stock_" +:+ symbol) e s) as (_ & Hq & _).
  rewrite Hmiss in Hq; simpl in Hq.
  destruct (get_stock_data_cases symbol e s)
    as [(d & s1' & Hg & _)|[(s1' & Hg & H)|(s1' & inf & b & Hg & H)]];
    rewrite Hmiss in Hg; [discriminate| |]; injection Hg as <-; rewrite H.
  - simpl. by rewrite Hq.
  - rewrite set_cached_run. simpl. by rewrite Hq.
Qed.

(** A miss stays a miss while nothing is stored under the key and the
    clock does not run backwards. *)
Lemma get_cached_miss_stable key e s s2 :
  fst (get_cached key e s) = Ok None →
  cache s2 !! key = cache s !! key →
  (time_at e (clock_reads s) <= time_at e (clock_reads s2))%Q →
  fst (get_cached key e s2) = Ok None.
Proof.
  rewrite !get_cached_run. intros Hmiss -> Htime.
  destruct (cache s !! key) as [[d ts]|]; [|reflexivity].
  destruct (Qlt_le_dec (time_at e (clock_reads s) - ts) CACHE_TTL) as [Hlt|Hge];
    [discriminate|].
  destruct (Qlt_le_dec (time_at e (clock_reads s2) - ts) CACHE_TTL) as [Hlt2|Hge2];
    [exfalso; lra | reflexivity].
Qed.

(** C5. On a miss, when the provider raises or has no price history,
    [get_stock_data] returns [None], stores nothing, and has asked the
    provider; a later call for the same symbol, with nothing stored under
    its key in between, asks the provider again. No call ever raises. *)
Theorem no_cache_on_miss (e : env) (s s1 : state) (symbol : string) :
  get_cached ("stock_" +:+ symbol) e s = (Ok None, s1) →
  (∃ x, info (provider e (length (queries s1)) symbol) = Raise x) ∨
  (∃ x, history (provider e (length (queries s1)) symbol) = Raise x) ∨
  history (provider e (length (queries s1)) symbol) = Ok [] →
  (∃ s', get_stock_data symbol e s = (Ok None, s') ∧
         cache s' = cache s ∧ queries s' = symbol :: queries s) ∧
  (∀ s2, cache s2 !! ("stock_" +:+ symbol) = cache s !! ("stock_" +:+ symbol) →
         (time_at e (clock_reads s) <= time_at e (clock_reads s2))%Q →
         queries (snd (get_stock_data symbol e s2)) = symbol :: queries s2) ∧
  (∀ e' s' sym, ∃ r, fst (get_stock_data sym e' s') = Ok r).
Proof.
  intros Hmiss Hfail.
  pose proof (get_cached_frame ("stock_" +:+ symbol) e s) as (Hc & Hq & _).
  rewrite Hmiss in Hc, Hq; simpl in Hc, Hq.
  split; [|split].
  - exists (asked symbol s1). split; [by apply get_stock_data_absent|].
    simpl. by rewrite Hc, Hq.
  - intros s2 Hsame Htime.
    assert (Hmiss2 : fst (get_cached ("stock_" +:+ symbol) e s2) = Ok None).
    { apply (get_cached_miss_stable _ e s s2); [by rewrite Hmiss|done..]. }
    destruct (get_cached ("stock_" +:+ symbol) e s2) as [r s2'] eqn:Hg.
    simpl in Hmiss2; subst r. by apply (get_stock_data_miss_asks _ _ _ s2').
  - intros e' s' sym. apply get_stock_data_total.
Qed.

Lemma no_cache_on_miss_witness :
  fst (get_stock_data "SBIN.NS" down_env initial) = Ok None ∧
  cache (snd (get_stock_data "SBIN.NS" down_env initial)) = ∅ ∧
  queries (snd (get_stock_data "SBIN.NS" down_env
                  (snd (get_stock_data "SBIN.NS" down_env initial))))
  = ["SBIN.NS"; "SBIN.NS"].
Proof.
  destruct (no_cache_on_miss down_env initial initial "SBIN.NS")
    as ((s' & Hrun & Hcache & Hq) & Hagain & _);
    [reflexivity | right; right; reflexivity |].
  split; [reflexivity|]. split; [reflexivity|].
  rewrite Hagain; [reflexivity | reflexivity | vm_compute; discriminate].
Defined.

(** ** The fan-out *)

Lemma run_tasks_spec tasks : ∀ e s,
  fst <$> fst (run_tasks tasks e s) = tasks ∧
  Forall returned (fst (run_tasks tasks e s)).
Proof.
  induction tasks as [|symbol rest IH]; intros e s; simpl; [by split|].
  destruct (get_stock_data_total symbol e s) as [r Hr].
  destruct (get_stock_data symbol e s) as [r' s1]. simpl in Hr; subst r'.
  specialize (IH e s1). destruct (run_tasks rest e s1) as [fs s2].
  simpl in *. destruct IH as [IH1 IH2]. split; [by f_equal|].
  constructor; [by exists r | done].
Qed.

Lemma gather_returned fs : ∀ results,
  Forall returned fs → gather fs results = Ok (results ++ successes fs).
Proof.
  induction fs as [|[sym r] fs IH]; intros results Hall; simpl.
  { by rewrite app_nil_r. }
  inversion Hall as [|? ? [o Ho] Hrest]; subst. simpl in Ho; subst r.
  unfold successes; simpl. destruct o as [d|]; simpl.
  - rewrite IH by done. by rewrite <- app_assoc.
  - by apply IH.
Qed.

Lemma successes_failures fs :
  Forall returned fs → length (successes fs) + length (failures fs) = length fs.
Proof.
  induction 1 as [|[sym r] fs [o Ho] _ IH]; [reflexivity|].
  simpl in Ho; subst r. unfold successes, failures, omap in *; simpl.
  destruct o; simpl; lia.
Qed.

Lemma omap_lookup_seq {A} (l2 : list A) : ∀ l1,
  omap (fun i => (l1 ++ l2) !! i) (seq (length l1) (length l2)) = l2.
Proof.
  induction l2 as [|x l2 IH]; intros l1; [reflexivity|]. simpl.
  rewrite list_lookup_middle by reflexivity. f_equal.
  specialize (IH (l1 ++ [x])). rewrite <- app_assoc, length_app in IH.
  simpl in IH. rewrite Nat.add_1_r in IH. exact IH.
Qed.

Lemma completed_permutation {A} (l : list A) (order : list nat) :
  order ≡ₚ seq 0 (length l) → omap (fun i => l !! i) order ≡ₚ l.
Proof.
  intros ->. pose proof (omap_lookup_seq l []) as H. simpl in H. by rewrite H.
Qed.

(** C4. Whatever order the tasks finish in, every submitted symbol is
    fetched once, no fetch raises, and [fetch_stocks_concurrent] returns
    exactly the quotes of the fetches that succeeded: with N symbols and
    N - M absent results, M quotes. *)
Theorem fanout_completeness (e : env) (s : state) (symbols : list string) :
  completion e (pools s) (length symbols) ≡ₚ seq 0 (length symbols) →
  ∃ futures s',
    submit_all symbols e s = (Ok futures, s') ∧
    fst <$> futures ≡ₚ symbols ∧
    Forall returned futures ∧
    fetch_stocks_concurrent symbols e s = (Ok (successes futures), s') ∧
    length futures = length symbols ∧
    length (successes futures) = length symbols - length (failures futures).
Proof.
  intros Hperm. unfold fetch_stocks_concurrent, bind, submit_all, lift.
  set (s0 := {| cache := cache s; clock_reads := clock_reads s;
                queries := queries s; pools := S (pools s) |}).
  set (tasks := omap (fun i => symbols !! i) (completion e (pools s) (length symbols))).
  pose proof (run_tasks_spec tasks e s0) as [Hsyms Hret].
  destruct (run_tasks tasks e s0) as [fs s1]. simpl in Hsyms, Hret.
  assert (Htasks : tasks ≡ₚ symbols) by by apply completed_permutation.
  assert (Hlen : length fs = length symbols).
  { rewrite <- Htasks, <- Hsyms. symmetry. apply length_fmap. }
  exists fs, s1. repeat split; try done.
  - by rewrite Hsyms.
  - by rewrite (gather_returned fs [] Hret).
  - pose proof (successes_failures fs Hret). lia.
Qed.

Lemma fanout_completeness_witness :
  ∃ results s',
    fetch_stocks_concurrent ["RELIANCE.NS"; "TCS.NS"; "INFY.NS"] patchy_env initial
    = (Ok results, s') ∧ length results = 2.
Proof.
  destruct (fanout_completeness patchy_env initial ["RELIANCE.NS"; "TCS.NS"; "INFY.NS"])
    as (fs & s' & Hsub & _ & _ & Hfetch & _ & _).
  - change (rev (seq 0 3) ≡ₚ seq 0 3). symmetry. apply Permutation_rev.
  - exists (successes fs), s'. split; [exact Hfetch|].
    vm_compute in Hsub. injection Hsub as <- _. reflexivity.
Defined.

(** ** Single-stock lookup *)

Lemma endswith_spec (s suffix : string) :
  endswith s suffix = true ↔ ends_with s suffix.
Proof.
  split.
  - induction s as [|c s IH]; cbn [endswith]; rewrite orb_true_iff; intros [H|H].
    + apply String.eqb_eq in H. exists "". by subst suffix.
    + discriminate.
    + apply String.eqb_eq in H. exists "". by subst suffix.
    + destruct (IH H) as [p ->]. by exists (String c p).
  - intros [p ->]. induction p as [|c p IH].
    + change ("" +:+ suffix) with suffix.
      destruct suffix; cbn [endswith]; rewrite orb_true_iff; left;
        apply String.eqb_refl.
    + change (String c p +:+ suffix) with (String c (p +:+ suffix)).
      cbn [endswith]. rewrite IH. apply orb_true_r.
Qed.

Lemma get_single_stock_run symbol e s :
  let upstream :=
    if negb (endswith symbol ".NS") && negb (endswith symbol ".BO")
    then symbol +:+ ".NS" else symbol in
  get_single_stock symbol e s =
  match get_stock_data upstream e s with
  | (Ok (Some d), s1) =>
      (Ok {| Single.status := 200; Single.success := true; Single.data := Some d;
             Single.error := None;
             Single.timestamp := Some (time_at e (clock_reads s1)) |}, tick s1)
  | (Ok None, s1) =>
      (Ok {| Single.status := 404; Single.success := false; Single.data := None;
             Single.error := Some "Stock not found or data unavailable";
             Single.timestamp := None |}, s1)
  | (Raise x, s1) => (Raise x, s1)
  end.
Proof.
  intros upstream. unfold get_single_stock, bind. fold upstream.
  destruct (get_stock_data upstream e s) as [[[d|]|x] s1]; reflexivity.
Qed.

Lemma get_single_stock_queries symbol e s :
  queries (snd (get_single_stock symbol e s)) =
  queries (snd (get_stock_data
                  (if negb (endswith symbol ".NS") && negb (endswith symbol ".BO")
                   then symbol +:+ ".NS" else symbol) e s)).
Proof.
  pose proof (get_single_stock_run symbol e s) as Hrun. simpl in Hrun.
  rewrite Hrun. by destruct (get_stock_data _ e s) as [[[d|]|x] s2].
Qed.

(** C8. The lookup fetches [symbol] itself when it ends with [".NS"] or
    [".BO"], and [symbol + ".NS"] otherwise; that is the symbol the provider
    is asked for on a miss. The answer is the 404 response with
    [success = false] exactly when the fetch is absent, and otherwise the
    [success = true] response around the fetched quote. ["INFY"] is asked
    upstream as ["INFY.NS"], ["INFY.BO"] as it is. *)
Theorem single_stock_lookup (e : env) (s : state) (symbol : string) :
  (∃ upstream,
    (ends_with symbol ".NS" ∨ ends_with symbol ".BO" → upstream = symbol) ∧
    (¬ ends_with symbol ".NS" → ¬ ends_with symbol ".BO" →
       upstream = symbol +:+ ".NS") ∧
    (∀ s1, get_cached ("stock_" +:+ upstream) e s = (Ok None, s1) →
       queries (snd (get_single_stock symbol e s)) = upstream :: queries s) ∧
    (∃ r, fst (get_single_stock symbol e s) = Ok r ∧
       (fst (get_stock_data upstream e s) = Ok None →
          Single.status r = 404 ∧ Single.success r = false ∧ Single.data r = None) ∧
       (∀ d, fst (get_stock_data upstream e s) = Ok (Some d) →
          Single.status r = 200 ∧ Single.success r = true ∧ Single.data r = Some d) ∧
       (Single.status r = 404 ↔ fst (get_stock_data upstream e s) = Ok None))) ∧
  queries (snd (get_single_stock "INFY" e initial)) = ["INFY.NS"] ∧
  queries (snd (get_single_stock "INFY.BO" e initial)) = ["INFY.BO"].
Proof.
  split.
  - pose proof (get_single_stock_run symbol e s) as Hrun. simpl in Hrun.
    set (upstream := if negb (endswith symbol ".NS") && negb (endswith symbol ".BO")
                     then symbol +:+ ".NS" else symbol) in *.
    exists upstream. split; [|split; [|split]].
    + intros Hsuf. subst upstream.
      destruct Hsuf as [H|H]; apply endswith_spec in H; rewrite H;
        [reflexivity | by rewrite andb_false_r].
    + intros Hns Hbo. subst upstream.
      destruct (endswith symbol ".NS") eqn:H1;
        [exfalso; by apply Hns, endswith_spec|].
      destruct (endswith symbol ".BO") eqn:H2;
        [exfalso; by apply Hbo, endswith_spec|].
      reflexivity.
    + intros s1 Hmiss. rewrite get_single_stock_queries. fold upstream.
      by apply (get_stock_data_miss_asks upstream e s s1).
    + rewrite Hrun.
      destruct (get_stock_data_total upstream e s) as [o Ho].
      destruct (get_stock_data upstream e s) as [r' s2]. simpl in Ho; subst r'.
      destruct o as [d|]; eexists; (split; [reflexivity|]); simpl.
      * split; [discriminate|]. split; [by intros d' [= <-]|]. split; discriminate.
      * split; [done|]. split; [discriminate|]. done.
  - rewrite !get_single_stock_queries.
    split; [apply (get_stock_data_miss_asks "INFY.NS" e initial initial)
           |apply (get_stock_data_miss_asks "INFY.BO" e initial initial)];
    reflexivity.
Qed.

(** ** What a fetch leaves behind *)

(** A call of [get_stock_data] changes the cache at most under its own key,
    asks the provider at most for its own symbol, and creates no pool. *)
Lemma get_stock_data_frame symbol e s :
  let s' := snd (get_stock_data symbol e s) in
  (∀ k, k ≠ "stock_" +:+ symbol → cache s' !! k = cache s !! k) ∧
  (queries s' = queries s ∨ queries s' = symbol :: queries s) ∧
  pools s' = pools s.
Proof.
  pose proof (get_cached_frame ("stock_" +:+ symbol) e s) as (Hc & Hq & Hp & _).
  destruct (get_stock_data_cases symbol e s)
    as [(d & s1 & Hg & H)|[(s1 & Hg & H)|(s1 & inf & b & Hg & H)]];
    rewrite Hg in Hc, Hq, Hp; simpl in Hc, Hq, Hp; rewrite H; simpl.
  - rewrite Hc, Hq, Hp. auto.
  - rewrite Hc, Hq, Hp. auto.
  - rewrite Hc, Hq, Hp. split; [|auto].
    intros k Hk. by rewrite lookup_insert_ne.
Qed.

Lemma run_tasks_frame tasks : ∀ e s,
  let s' := snd (run_tasks tasks e s) in
  (∀ k, (∀ sym, sym ∈ tasks → k ≠ "stock_" +:+ sym) → cache s' !! k = cache s !! k) ∧
  (∃ new, queries s' = new ++ queries s ∧ new ⊆ tasks) ∧
  pools s' = pools s.
Proof.
  induction tasks as [|symbol rest IH]; intros e s; simpl.
  { split; [done|]. split; [|done]. by exists []. }
  pose proof (get_stock_data_frame symbol e s) as (Hc1 & Hq1 & Hp1).
  destruct (get_stock_data symbol e s) as [r s1]. simpl in Hc1, Hq1, Hp1.
  specialize (IH e s1). destruct (run_tasks rest e s1) as [fs s2].
  simpl in *. destruct IH as (Hc2 & (new & Hq2 & Hnew) & Hp2).
  split; [|split].
  - intros k Hk. rewrite Hc2, Hc1; [done| |].
    + apply Hk. left.
    + intros sym Hsym. apply Hk. by right.
  - destruct Hq1 as [Hq1|Hq1]; rewrite Hq2, Hq1.
    + exists new. split; [done|]. by apply list_subseteq_cons.
    + exists (new ++ [symbol]). split; [by rewrite <- app_assoc|].
      intros x Hx. apply elem_of_app in Hx as [Hx|Hx].
      * right. by apply Hnew.
      * apply list_elem_of_singleton in Hx as ->. left.
  - by rewrite Hp2.
Qed.

Lemma completed_subseteq {A} (l : list A) (order : list nat) :
  omap (fun i => l !! i) order ⊆ l.
Proof.
  intros x Hx. apply list_elem_of_omap in Hx as (i & _ & Hi).
  by apply list_elem_of_lookup_2 in Hi.
Qed.

(** A fan-out always returns; it creates one pool, touches the cache only
    under the keys of its symbols and asks the provider only for them. *)
Lemma fetch_stocks_concurrent_frame symbols e s :
  ∃ results s',
    fetch_stocks_concurrent symbols e s = (Ok results, s') ∧
    (∀ k, (∀ sym, sym ∈ symbols → k ≠ "stock_" +:+ sym) →
          cache s' !! k = cache s !! k) ∧
    (∃ new, queries s' = new ++ queries s ∧ new ⊆ symbols) ∧
    pools s' = S (pools s).
Proof.
  unfold fetch_stocks_concurrent, bind, submit_all, lift.
  set (s0 := {| cache := cache s; clock_reads := clock_reads s;
                queries := queries s; pools := S (pools s) |}).
  set (tasks := omap (fun i => symbols !! i) (completion e (pools s) (length symbols))).
  pose proof (run_tasks_spec tasks e s0) as [_ Hret].
  pose proof (run_tasks_frame tasks e s0) as (Hc & (new & Hq & Hnew) & Hp).
  pose proof (completed_subseteq symbols (completion e (pools s) (length symbols)))
    as Hsub. fold tasks in Hsub.
  destruct (run_tasks tasks e s0) as [fs s1]. simpl in *.
  rewrite (gather_returned fs [] Hret). exists (successes fs), s1.
  split; [done|]. split; [|split; [|done]].
  - intros k Hk. apply Hc. intros sym Hsym. apply Hk. by apply Hsub.
  - exists new. split; [done|]. by transitivity tasks.
Qed.

(** ** Search *)

Lemma prefix_spec (s1 : string) : ∀ s2,
  String.prefix s1 s2 = true ↔ ∃ b, s2 = s1 +:+ b.
Proof.
  induction s1 as [|a s1 IH]; intros s2.
  - split; [intros _; by exists s2 | intros _; by destruct s2].
  - destruct s2 as [|c s2]; simpl.
    + split; [discriminate | intros [b Hb]; discriminate].
    + destruct (ascii_dec a c) as [->|Hne].
      * rewrite IH. split; intros [b Hb]; exists b; [by rewrite Hb | by injection Hb].
      * split; [discriminate | intros [b Hb]; injection Hb; congruence].
Qed.

Lemma contains_spec (sub s : string) :
  contains sub s = true ↔ is_substring sub s.
Proof.
  split.
  - induction s as [|c s IH]; cbn [contains]; rewrite orb_true_iff; intros [H|H].
    + apply prefix_spec in H as [b Hb]. by exists "", b.
    + discriminate.
    + apply prefix_spec in H as [b Hb]. by exists "", b.
    + destruct (IH H) as (a & b & ->). by exists (String c a), b.
  - intros (a & b & ->). induction a as [|c a IH].
    + change ("" +:+ sub +:+ b) with (sub +:+ b).
      assert (Hp : String.prefix sub (sub +:+ b) = true)
        by (apply prefix_spec; by exists b).
      destruct (sub +:+ b); cbn [contains]; rewrite Hp; reflexivity.
    + change (String c a +:+ sub +:+ b) with (String c (a +:+ sub +:+ b)).
      cbn [contains]. rewrite IH. apply orb_true_r.
Qed.

(** [search_stocks] with the interpreter's [upper] read off the
    environment. *)
Lemma search_stocks_run (q : string) (e : env) (s : state) :
  search_stocks q e s =
  (let matching_symbols :=
     List.filter (fun sym => contains (str_upper e q) (str_upper e sym))
       NIFTY_50_STOCKS in
   let! results :=
     if negb (empty matching_symbols) then fetch_stocks_concurrent matching_symbols
     else ret [] in
   ret (PResponse {|
     success := true; query := Some (str_upper e q); count := length results;
     data := results; timestamp := None |})) e s.
Proof. reflexivity. Qed.

(** The symbols of the master list are ASCII strings without small
    letters: any [upper] that is right on ASCII leaves them as they are. *)
Lemma master_list_upper (e : env) :
  ascii_upper e → Forall (fun sym => str_upper e sym = sym) NIFTY_50_STOCKS.
Proof.
  intros Hup. unfold NIFTY_50_STOCKS.
  repeat (constructor; [by rewrite Hup|]). constructor.
Qed.

Lemma filter_ext_Forall {A} (f g : A → bool) (l : list A) :
  Forall (fun x => f x = g x) l → List.filter f l = List.filter g l.
Proof.
  induction 1 as [|x l Hx _ IH]; [reflexivity|]. simpl. by rewrite Hx, IH.
Qed.

Lemma matching_ascii (e : env) (query : string) :
  ascii_upper e →
  List.filter (fun sym => contains query (str_upper e sym)) NIFTY_50_STOCKS
  = List.filter (fun sym => contains query sym) NIFTY_50_STOCKS.
Proof.
  intros Hup. apply filter_ext_Forall.
  eapply Forall_impl; [exact (master_list_upper e Hup)|].
  intros sym Hsym. simpl in Hsym. by rewrite Hsym.
Qed.

(** C9. Whatever the query, the symbols searched for are exactly those of
    the master list whose upper-case form contains the upper-case query,
    both taken by the interpreter's [str.upper]. The response names the
    upper-case query and holds what the fan-out over these symbols returns;
    the provider is asked for no other symbol, and the cache changes at
    most under the [stock_] keys of the matches: no response is stored.
    With no match the data is empty and the state is untouched: no pool is
    created. Where [str.upper] does the usual on ASCII strings, ["TATA"], in
    either case, selects ["TATAMOTORS.NS"] and ["TATASTEEL.NS"] and nothing
    else, and any query whose upper-case form is ["INFY"], ASCII or not,
    selects ["INFY.NS"]. *)
Theorem search_scoping (e : env) (s : state) (q : string) :
  ∃ matching,
    (∀ sym, sym ∈ matching ↔
            sym ∈ NIFTY_50_STOCKS ∧
            is_substring (str_upper e q) (str_upper e sym)) ∧
    (∃ r s' new,
       search_stocks q e s = (Ok (PResponse r), s') ∧
       query r = Some (str_upper e q) ∧
       (matching ≠ [] →
          fetch_stocks_concurrent matching e s = (Ok (data r), s') ∧
          pools s' = S (pools s)) ∧
       (matching = [] → data r = [] ∧ s' = s) ∧
       queries s' = new ++ queries s ∧ new ⊆ matching ∧
       (∀ k, (∀ sym, sym ∈ matching → k ≠ "stock_" +:+ sym) →
             cache s' !! k = cache s !! k)) ∧
    (ascii_upper e →
       (q = "TATA" ∨ q = "tata" → matching = ["TATAMOTORS.NS"; "TATASTEEL.NS"]) ∧
       (str_upper e q = "INFY" → matching = ["INFY.NS"])).
Proof.
  exists (List.filter (fun sym => contains (str_upper e q) (str_upper e sym))
            NIFTY_50_STOCKS).
  split; [|split].
  - intros sym. rewrite list_elem_of_In, filter_In, <- list_elem_of_In.
    by rewrite contains_spec.
  - rewrite search_stocks_run. cbv zeta. unfold bind.
    set (matching := List.filter _ NIFTY_50_STOCKS).
    destruct matching as [|m ms] eqn:Hm.
    + cbn [empty negb]. unfold ret.
      eexists _, s, []. split; [reflexivity|]. simpl.
      repeat split; try done.
    + cbn [empty negb]. rewrite <- Hm.
      destruct (fetch_stocks_concurrent_frame matching e s)
        as (results & s' & Hfetch & Hc & (new & Hq & Hnew) & Hp).
      rewrite Hfetch. unfold ret.
      eexists _, s', new. split; [reflexivity|]. simpl.
      split; [done|]. split; [done|]. split; [by rewrite Hm|].
      split; [done|]. split; [done|]. exact Hc.
  - intros Hup. rewrite (matching_ascii e _ Hup). split.
    + intros [-> | ->]; rewrite Hup by reflexivity; reflexivity.
    + intros ->. reflexivity.
Qed.

Lemma search_scoping_witness :
  ∃ r s',
    search_stocks "tata" rising_env initial = (Ok (PResponse r), s') ∧
    query r = Some "TATA" ∧
    fetch_stocks_concurrent ["TATAMOTORS.NS"; "TATASTEEL.NS"] rising_env initial
    = (Ok (data r), s').
Proof.
  destruct (search_scoping rising_env initial "tata")
    as (matching & _ & (r & s' & new & Hrun & Hquery & Hfetch & _) & Hascii).
  assert (Hup : ascii_upper rising_env) by (intros x _; reflexivity).
  destruct (Hascii Hup) as [Htata _].
  rewrite (Htata (or_intror eq_refl)) in Hfetch.
  exists r, s'. split; [exact Hrun|]. split; [exact Hquery|].
  apply Hfetch. discriminate.
Defined.

(** ** Filtering and sorting *)

Lemma mapM_total {A B} (f : A → result B) (g : A → B) (l : list A) :
  (∀ x, x ∈ l → f x = Ok (g x)) → mapM f l = Ok (g <$> l).
Proof.
  induction l as [|x l IH]; intros Hf; [reflexivity|]. simpl.
  rewrite (Hf x) by left. simpl. rewrite IH; [reflexivity|].
  intros y Hy. apply Hf. by right.
Qed.

Lemma filterM_total {A} (p : A → result bool) (pb : A → bool) (l : list A) :
  (∀ x, x ∈ l → p x = Ok (pb x)) → filterM p l = Ok (List.filter pb l).
Proof.
  induction l as [|x l IH]; intros Hp; [reflexivity|]. simpl.
  rewrite (Hp x) by left. simpl. rewrite IH; [reflexivity|].
  intros y Hy. apply Hp. by right.
Qed.

Section sorting.
Context {A : Type}.

Lemma insert_sorted_perm (kx : Q * A) (l : list (Q * A)) :
  insert_sorted kx l ≡ₚ kx :: l.
Proof.
  induction l as [|ky l IH]; [reflexivity|]. simpl.
  destruct (Qlt_bool (fst ky) (fst kx)); [|reflexivity].
  rewrite IH. apply perm_swap.
Qed.

Lemma stable_sort_perm (l : list (Q * A)) : stable_sort l ≡ₚ l.
Proof.
  induction l as [|kx l IH]; [reflexivity|]. unfold stable_sort in *. simpl.
  by rewrite insert_sorted_perm, IH.
Qed.

Lemma insert_sorted_sorted (kx : Q * A) (l : list (Q * A)) :
  StronglySorted key_le l → StronglySorted key_le (insert_sorted kx l).
Proof.
  induction l as [|ky l IH]; intros Hs; simpl.
  { repeat constructor. }
  apply StronglySorted_inv in Hs as [Hs Hall]. unfold Qlt_bool.
  destruct (Qlt_le_dec (fst ky) (fst kx)) as [Hlt|Hge].
  - constructor; [by apply IH|]. rewrite insert_sorted_perm.
    constructor; [by apply Qlt_le_weak | done].
  - constructor; [by constructor|].
    constructor; [done|].
    eapply Forall_impl; [exact Hall|]. intros p Hp. unfold key_le in *.
    by apply Qle_trans with (fst ky).
Qed.

Lemma stable_sort_sorted (l : list (Q * A)) : StronglySorted key_le (stable_sort l).
Proof.
  induction l as [|kx l IH]; [constructor|]. by apply insert_sorted_sorted.
Qed.

Lemma StronglySorted_rev (R : relation (Q * A)) (l : list (Q * A)) :
  StronglySorted R l → StronglySorted (flip R) (rev l).
Proof.
  induction 1 as [|x l Hs IH Hall]; [constructor|]. simpl.
  apply StronglySorted_app. split; [|split; [done | repeat constructor]].
  intros x1 x2 Hx1 Hx2. apply list_elem_of_singleton in Hx2 as ->.
  rewrite Forall_forall in Hall. apply Hall.
  by rewrite list_elem_of_In, in_rev, <- list_elem_of_In.
Qed.

Variable g : A → Q.

Lemma zip_decorated (l : list A) :
  Forall (decorated g) (zip (g <$> l) l) ∧ snd <$> zip (g <$> l) l = l.
Proof.
  induction l as [|x l [IH1 IH2]]; [by split|]. simpl. split.
  - by constructor.
  - by f_equal.
Qed.

Lemma sorted_undecorate (R : relation Q) (l : list (Q * A)) :
  Forall (decorated g) l →
  StronglySorted (fun p1 p2 => R (fst p1) (fst p2)) l →
  StronglySorted (fun a b => R (g a) (g b)) (snd <$> l).
Proof.
  intros Hd. induction 1 as [|p l Hs IH Hall]; [constructor|].
  apply Forall_cons in Hd as [Hp Hd]. simpl. constructor; [by apply IH|].
  rewrite Forall_fmap. rewrite Forall_forall in Hall, Hd |- *.
  intros p2 Hp2. simpl. unfold decorated in *.
  rewrite <- Hp, <- (Hd p2 Hp2). by apply Hall.
Qed.

(** What [list.sort] returns when every key can be computed: the same
    elements, in key order (descending for [reverse=True]). *)
Lemma list_sort_spec (key : A → result Q) (reverse : bool) (l : list A) :
  (∀ x, x ∈ l → key x = Ok (g x)) →
  ∃ l', list_sort key reverse l = Ok l' ∧ l' ≡ₚ l ∧
        StronglySorted
          (fun a b => if reverse then (g b <= g a)%Q else (g a <= g b)%Q) l'.
Proof.
  intros Hkey. unfold list_sort. rewrite (mapM_total key g l Hkey). simpl.
  destruct (zip_decorated l) as [Hdec Hsnd].
  set (d := zip (g <$> l) l) in *.
  eexists. split; [reflexivity|]. destruct reverse.
  - split.
    + transitivity (snd <$> d); [|by rewrite Hsnd]. apply fmap_Permutation.
      by rewrite <- Permutation_rev, stable_sort_perm, <- Permutation_rev.
    + apply (sorted_undecorate (fun a b => (b <= a)%Q)).
      * by rewrite <- Permutation_rev, stable_sort_perm, <- Permutation_rev.
      * apply (StronglySorted_rev key_le), stable_sort_sorted.
  - split.
    + transitivity (snd <$> d); [|by rewrite Hsnd]. apply fmap_Permutation.
      apply stable_sort_perm.
    + apply (sorted_undecorate Qle).
      * by rewrite stable_sort_perm.
      * apply stable_sort_sorted.
Qed.
End sorting.

Lemma StronglySorted_take {A} (R : relation A) (n : nat) (l : list A) :
  StronglySorted R l → StronglySorted R (take n l).
Proof.
  intros Hs. revert n. induction Hs as [|x l Hs IH Hall]; intros [|n]; simpl;
    try constructor; [apply IH | by apply Forall_take].
Qed.

(** ** What the cache holds under the [stock_] keys *)

Lemma stock_key_prefix (symbol : string) :
  String.prefix "stock_" ("stock_" +:+ symbol) = true.
Proof. apply prefix_spec. by exists symbol. Qed.

Lemma get_cached_hit key e s d s1 :
  get_cached key e s = (Ok (Some d), s1) → ∃ ts, cache s !! key = Some (d, ts).
Proof.
  rewrite get_cached_run. destruct (cache s !! key) as [[d' ts]|]; [|discriminate].
  destruct (Qlt_le_dec _ _); [|discriminate]. intros [= -> _]. by exists ts.
Qed.

Lemma get_stock_data_wf symbol e s :
  cache_wf (cache s) →
  cache_wf (cache (snd (get_stock_data symbol e s))) ∧
  (∀ d, fst (get_stock_data symbol e s) = Ok (Some d) → is_quote d).
Proof.
  intros Hwf.
  pose proof (get_cached_frame ("stock_" +:+ symbol) e s) as (Hc & _).
  destruct (get_stock_data_cases symbol e s)
    as [(d & s1 & Hg & H)|[(s1 & Hg & H)|(s1 & inf & b & Hg & H)]];
    rewrite Hg in Hc; simpl in Hc; rewrite H; simpl.
  - rewrite Hc. split; [done|]. intros d' [= <-].
    apply get_cached_hit in Hg as [ts Hts].
    apply (map_Forall_lookup_1 _ _ _ _ Hwf Hts), stock_key_prefix.
  - rewrite Hc. split; [done | discriminate].
  - rewrite Hc. split.
    + apply map_Forall_insert_2; [|done]. intros _. by eexists.
    + intros d [= <-]. by eexists.
Qed.

Lemma run_tasks_wf tasks : ∀ e s,
  cache_wf (cache s) →
  cache_wf (cache (snd (run_tasks tasks e s))) ∧
  Forall is_quote (successes (fst (run_tasks tasks e s))).
Proof.
  induction tasks as [|symbol rest IH]; intros e s Hwf; simpl.
  { split; [done | constructor]. }
  destruct (get_stock_data_wf symbol e s Hwf) as [Hwf1 Hq].
  destruct (get_stock_data symbol e s) as [r s1]. simpl in Hwf1, Hq.
  destruct (IH e s1 Hwf1) as [Hwf2 Hqs].
  destruct (run_tasks rest e s1) as [fs s2]. simpl in *.
  split; [done|]. unfold successes in *. simpl.
  destruct r as [[d|]|x]; simpl; try done.
  constructor; [by apply Hq | done].
Qed.

(** On a well-formed cache a fan-out returns quotes only. *)
Lemma fetch_stocks_concurrent_quotes symbols e s :
  cache_wf (cache s) →
  ∃ results s',
    fetch_stocks_concurrent symbols e s = (Ok results, s') ∧
    Forall is_quote results ∧ cache_wf (cache s').
Proof.
  intros Hwf. unfold fetch_stocks_concurrent, bind, submit_all, lift.
  set (s0 := {| cache := cache s; clock_reads := clock_reads s;
                queries := queries s; pools := S (pools s) |}).
  set (tasks := omap (fun i => symbols !! i) (completion e (pools s) (length symbols))).
  pose proof (run_tasks_spec tasks e s0) as [_ Hret].
  destruct (run_tasks_wf tasks e s0 Hwf) as [Hwf1 Hq].
  destruct (run_tasks tasks e s0) as [fs s1]. simpl in *.
  rewrite (gather_returned fs [] Hret). by exists (successes fs), s1.
Qed.

Lemma getitem_changePercent_quote d :
  is_quote d → getitem_changePercent d = Ok (cp_of d).
Proof. by intros [q ->]. Qed.

Lemma quotes_list (l : list pyval) :
  Forall is_quote l → ∃ qs, l = PQuote <$> qs.
Proof.
  induction 1 as [|d l [q ->] _ [qs ->]]; [by exists []|]. by exists (q :: qs).
Qed.

Lemma StronglySorted_fmap_inv {A B} (f : A → B) (R : relation B) (l : list A) :
  StronglySorted R (f <$> l) → StronglySorted (fun a b => R (f a) (f b)) l.
Proof.
  induction l as [|x l IH]; [constructor|]. simpl. intros Hs.
  apply StronglySorted_inv in Hs as [Hs Hall]. constructor; [by apply IH|].
  by rewrite Forall_fmap in Hall.
Qed.

(** ** Gainers and losers *)

(** The filter and sort of [get_gainers] and [get_losers] on fetched
    quotes. *)
Lemma movers_shape (p : pyval → result bool) (pb : Q → bool) (reverse : bool)
    (all_stocks : list pyval) :
  (∀ d, is_quote d → p d = Ok (pb (cp_of d))) →
  Forall is_quote all_stocks →
  ∃ kept sorted,
    filterM p all_stocks = Ok kept ∧
    list_sort getitem_changePercent reverse kept = Ok sorted ∧
    Forall is_quote sorted ∧
    Forall (fun d => pb (cp_of d) = true) sorted ∧
    sorted ⊆ all_stocks ∧
    StronglySorted
      (fun a b => if reverse then (cp_of b <= cp_of a)%Q else (cp_of a <= cp_of b)%Q)
      sorted.
Proof.
  intros Hp Hall. rewrite Forall_forall in Hall.
  exists (List.filter (fun d => pb (cp_of d)) all_stocks).
  assert (Hkept : ∀ d, d ∈ List.filter (fun d => pb (cp_of d)) all_stocks →
                       d ∈ all_stocks ∧ pb (cp_of d) = true).
  { intros d. by rewrite list_elem_of_In, filter_In, <- list_elem_of_In. }
  destruct (list_sort_spec cp_of getitem_changePercent reverse
              (List.filter (fun d => pb (cp_of d)) all_stocks))
    as (sorted & Hsort & Hperm & Hsorted).
  { intros d Hd. apply getitem_changePercent_quote, Hall. by apply Hkept. }
  exists sorted. split; [|split; [done|]].
  { apply filterM_total. intros d Hd. by apply Hp, Hall. }
  assert (Hin : ∀ d, d ∈ sorted → d ∈ all_stocks ∧ pb (cp_of d) = true).
  { intros d Hd. apply Hkept. by rewrite <- Hperm. }
  repeat split; try done.
  - apply Forall_forall. intros d Hd. by apply Hall, Hin.
  - apply Forall_forall. intros d Hd. by apply Hin.
  - intros d Hd. by apply Hin.
Qed.

Lemma get_gainers_fresh e s :
  cache_wf (cache s) →
  fst (get_cached "gainers_response" e s) = Ok None →
  ∃ sorted now s',
    get_gainers e s =
    (Ok (PResponse {| success := true; query := None;
                      count := length (take 10 sorted); data := take 10 sorted;
                      timestamp := Some now |}), s') ∧
    Forall is_quote sorted ∧
    Forall (fun d => (0 < cp_of d)%Q) sorted ∧
    StronglySorted (fun a b => (cp_of b <= cp_of a)%Q) sorted.
Proof.
  intros Hwf Hmiss. unfold get_gainers, bind at 1.
  pose proof (get_cached_frame "gainers_response" e s) as (Hc & _).
  destruct (get_cached "gainers_response" e s) as [r s1].
  simpl in Hmiss, Hc; subst r. rewrite <- Hc in Hwf.
  destruct (fetch_stocks_concurrent_quotes (take 30 NIFTY_50_STOCKS) e s1 Hwf)
    as (all_stocks & s2 & Hfetch & Hq & _).
  unfold bind at 1. rewrite Hfetch.
  destruct (movers_shape
              (fun s => let? cp := getitem_changePercent s in Ok (Qlt_bool 0 cp))
              (Qlt_bool 0) true all_stocks)
    as (kept & sorted & Hfilter & Hsort & Hqs & Hpos & _ & Hsorted); [|done|].
  { by intros d [q ->]. }
  unfold bind at 1, lift at 1. rewrite Hfilter.
  unfold bind at 1, lift at 1. rewrite Hsort.
  eexists sorted, _, _. split; [reflexivity|]. split; [done|]. split; [|done].
  eapply Forall_impl; [exact Hpos|]. intros d. unfold Qlt_bool.
  by destruct (Qlt_le_dec 0 (cp_of d)).
Qed.

Lemma get_losers_fresh e s :
  cache_wf (cache s) →
  fst (get_cached "losers_response" e s) = Ok None →
  ∃ sorted now s',
    get_losers e s =
    (Ok (PResponse {| success := true; query := None;
                      count := length (take 10 sorted); data := take 10 sorted;
                      timestamp := Some now |}), s') ∧
    Forall is_quote sorted ∧
    Forall (fun d => (cp_of d < 0)%Q) sorted ∧
    StronglySorted (fun a b => (cp_of a <= cp_of b)%Q) sorted.
Proof.
  intros Hwf Hmiss. unfold get_losers, bind at 1.
  pose proof (get_cached_frame "losers_response" e s) as (Hc & _).
  destruct (get_cached "losers_response" e s) as [r s1].
  simpl in Hmiss, Hc; subst r. rewrite <- Hc in Hwf.
  destruct (fetch_stocks_concurrent_quotes (take 30 NIFTY_50_STOCKS) e s1 Hwf)
    as (all_stocks & s2 & Hfetch & Hq & _).
  unfold bind at 1. rewrite Hfetch.
  destruct (movers_shape
              (fun s => let? cp := getitem_changePercent s in Ok (Qlt_bool cp 0))
              (fun cp => Qlt_bool cp 0) false all_stocks)
    as (kept & sorted & Hfilter & Hsort & Hqs & Hneg & _ & Hsorted); [|done|].
  { by intros d [q ->]. }
  unfold bind at 1, lift at 1. rewrite Hfilter.
  unfold bind at 1, lift at 1. rewrite Hsort.
  eexists sorted, _, _. split; [reflexivity|]. split; [done|]. split; [|done].
  eapply Forall_impl; [exact Hneg|]. intros d. unfold Qlt_bool.
  by destruct (Qlt_le_dec (cp_of d) 0).
Qed.

(** C3. A freshly built gainers response holds at most 10 quotes, each
    with [changePercent > 0], in descending order of [changePercent]; a
    freshly built losers response holds at most 10 quotes, each with
    [changePercent < 0], in ascending order; no quote is in both. *)
Theorem gainers_losers_partition (e1 e2 : env) (s1 s2 : state) :
  cache_wf (cache s1) → cache_wf (cache s2) →
  fst (get_cached "gainers_response" e1 s1) = Ok None →
  fst (get_cached "losers_response" e2 s2) = Ok None →
  ∃ (g l : response pyval) (gs ls : list Quote.t),
    fst (get_gainers e1 s1) = Ok (PResponse g) ∧
    fst (get_losers e2 s2) = Ok (PResponse l) ∧
    data g = PQuote <$> gs ∧ data l = PQuote <$> ls ∧
    Forall (fun q => (0 < Quote.changePercent q)%Q) gs ∧
    StronglySorted (fun a b => (Quote.changePercent b <= Quote.changePercent a)%Q) gs ∧
    Forall (fun q => (Quote.changePercent q < 0)%Q) ls ∧
    StronglySorted (fun a b => (Quote.changePercent a <= Quote.changePercent b)%Q) ls ∧
    (∀ d, d ∈ data g → d ∉ data l) ∧
    (length (data g) ≤ 10)%nat ∧ (length (data l) ≤ 10)%nat.
Proof.
  intros Hwf1 Hwf2 Hmiss1 Hmiss2.
  destruct (get_gainers_fresh e1 s1 Hwf1 Hmiss1)
    as (sg & now1 & s1' & Hg & Hqg & Hpos & Hsg).
  destruct (get_losers_fresh e2 s2 Hwf2 Hmiss2)
    as (sl & now2 & s2' & Hl & Hql & Hneg & Hsl).
  destruct (quotes_list (take 10 sg)) as [gs Hgs]; [by apply Forall_take|].
  destruct (quotes_list (take 10 sl)) as [ls Hls]; [by apply Forall_take|].
  apply (Forall_take _ 10) in Hpos. apply (Forall_take _ 10) in Hneg.
  apply (StronglySorted_take _ 10) in Hsg. apply (StronglySorted_take _ 10) in Hsl.
  rewrite Hg, Hl. eexists _, _, gs, ls.
  split; [reflexivity|]. split; [reflexivity|]. simpl.
  split; [done|]. split; [done|].
  rewrite Hgs in Hpos, Hsg. rewrite Hls in Hneg, Hsl.
  rewrite Forall_fmap in Hpos. rewrite Forall_fmap in Hneg.
  apply StronglySorted_fmap_inv in Hsg. apply StronglySorted_fmap_inv in Hsl.
  split; [done|]. split; [done|]. split; [done|]. split; [done|].
  split; [|split].
  - rewrite Hgs, Hls. intros d Hd Hd'.
    apply list_elem_of_fmap in Hd as (qg & -> & Hqg').
    apply list_elem_of_fmap in Hd' as (ql & [= <-] & Hql').
    rewrite Forall_forall in Hpos, Hneg.
    specialize (Hpos _ Hqg'). specialize (Hneg _ Hql'). simpl in *. lra.
  - rewrite length_take. lia.
  - rewrite length_take. lia.
Qed.

Lemma gainers_losers_partition_witness :
  ∃ g l,
    fst (get_gainers lively_env initial) = Ok (PResponse g) ∧
    fst (get_losers lively_env initial) = Ok (PResponse l) ∧
    (∀ d, d ∈ data g → d ∉ data l) ∧
    (length (data g) ≤ 10)%nat ∧ (length (data l) ≤ 10)%nat.
Proof.
  destruct (gainers_losers_partition lively_env lively_env initial initial)
    as (g & l & gs & ls & Hg & Hl & _ & _ & _ & _ & _ & _ & Hdisj & Hlg & Hll).
  - apply map_Forall_empty.
  - apply map_Forall_empty.
  - reflexivity.
  - reflexivity.
  - exists g, l. split; [exact Hg|]. split; [exact Hl|]. split; [exact Hdisj|].
    split; [exact Hlg | exact Hll].
Defined.

(** ** Indices, stocks and the shape of fresh responses *)

Lemma index_rows_total results : ∀ indices_data e s,
  Forall is_quote results →
  ∃ rows s', index_rows results indices_data e s = (Ok rows, s').
Proof.
  induction results as [|d rest IH]; intros acc e s Hq; simpl.
  { by eexists _, _. }
  apply Forall_cons in Hq as [[q ->] Hq].
  unfold bind, lift, time_time. simpl. by apply IH.
Qed.

Lemma get_indices_fresh e s :
  cache_wf (cache s) →
  fst (get_cached "indices_response" e s) = Ok None →
  ∃ rows now s',
    get_indices e s =
    (Ok (PResponse {| success := true; query := None; count := length rows;
                      data := rows; timestamp := Some now |}), s').
Proof.
  intros Hwf Hmiss. unfold get_indices, bind at 1.
  pose proof (get_cached_frame "indices_response" e s) as (Hc & _).
  destruct (get_cached "indices_response" e s) as [r s1].
  simpl in Hmiss, Hc; subst r. rewrite <- Hc in Hwf.
  destruct (fetch_stocks_concurrent_quotes (snd <$> NSE_INDICES) e s1 Hwf)
    as (results & s2 & Hfetch & Hq & _).
  unfold bind at 1. rewrite Hfetch.
  destruct (index_rows_total results [] e s2 Hq) as (rows & s3 & Hrows).
  unfold bind at 1. rewrite Hrows.
  by eexists rows, _, _.
Qed.

Lemma get_stocks_fresh e s :
  cache_wf (cache s) →
  fst (get_cached "stocks_response" e s) = Ok None →
  ∃ sorted now s',
    get_stocks e s =
    (Ok (PResponse {| success := true; query := None; count := length sorted;
                      data := sorted; timestamp := Some now |}), s') ∧
    Forall is_quote sorted ∧
    StronglySorted (fun a b => (Qabs (cp_of b) <= Qabs (cp_of a))%Q) sorted.
Proof.
  intros Hwf Hmiss. unfold get_stocks, bind at 1.
  pose proof (get_cached_frame "stocks_response" e s) as (Hc & _).
  destruct (get_cached "stocks_response" e s) as [r s1].
  simpl in Hmiss, Hc; subst r. rewrite <- Hc in Hwf.
  destruct (fetch_stocks_concurrent_quotes (take 20 NIFTY_50_STOCKS) e s1 Hwf)
    as (stocks_data & s2 & Hfetch & Hq & _).
  unfold bind at 1. rewrite Hfetch.
  destruct (list_sort_spec (fun d => Qabs (cp_of d))
              (fun x => let? cp := getitem_changePercent x in Ok (Qabs cp))
              true stocks_data)
    as (sorted & Hsort & Hperm & Hsorted).
  { rewrite Forall_forall in Hq. intros d Hd. by destruct (Hq d Hd) as [q ->]. }
  unfold bind at 1, lift at 1. rewrite Hsort.
  eexists sorted, _, _. split; [reflexivity|]. split; [|done].
  by rewrite Hperm.
Qed.

(** C10. On a well-formed cache, every response that the indices, stocks,
    gainers and losers views build on a miss of their response key, and
    every search response, has [success = true] and a [count] equal to the
    length of its [data], whatever the provider answers. *)
Theorem fresh_response_shape (e : env) (s : state) (q : string) :
  cache_wf (cache s) →
  (∀ key view,
     (key, view) ∈ [("indices_response", get_indices); ("stocks_response", get_stocks);
                    ("gainers_response", get_gainers); ("losers_response", get_losers)] →
     fst (get_cached key e s) = Ok None →
     ∃ r, fst (view e s) = Ok (PResponse r) ∧
          success r = true ∧ count r = length (data r)) ∧
  (∃ r, fst (search_stocks q e s) = Ok (PResponse r) ∧
        success r = true ∧ count r = length (data r)).
Proof.
  intros Hwf. split.
  - intros key view Hin Hmiss.
    repeat (apply elem_of_cons in Hin as [[= -> ->]|Hin]).
    + destruct (get_indices_fresh e s Hwf Hmiss) as (rows & now & s' & H).
      rewrite H. by eexists.
    + destruct (get_stocks_fresh e s Hwf Hmiss) as (l & now & s' & H & _).
      rewrite H. by eexists.
    + destruct (get_gainers_fresh e s Hwf Hmiss) as (l & now & s' & H & _).
      rewrite H. by eexists.
    + destruct (get_losers_fresh e s Hwf Hmiss) as (l & now & s' & H & _).
      rewrite H. by eexists.
    + by apply elem_of_nil in Hin.
  - rewrite search_stocks_run. cbv zeta. unfold bind.
    destruct (List.filter _ NIFTY_50_STOCKS) as [|m ms]; cbn [empty negb].
    + unfold ret. by eexists.
    + destruct (fetch_stocks_concurrent_frame (m :: ms) e s)
        as (results & s' & Hfetch & _).
      rewrite Hfetch. unfold ret. by eexists.
Qed.

Lemma fresh_response_shape_witness :
  ∃ r, fst (get_stocks down_env initial) = Ok (PResponse r) ∧
       success r = true ∧ count r = length (data r) ∧ data r = [].
Proof.
  destruct (fresh_response_shape down_env initial "TATA") as [Hviews _].
  - apply map_Forall_empty.
  - destruct (Hviews "stocks_response" get_stocks) as (r & Hr & Hs & Hc).
    + right; left.
    + reflexivity.
    + exists r. split; [exact Hr|]. split; [exact Hs|]. split; [exact Hc|].
      vm_compute in Hr. by injection Hr as <-.
Defined.

(** ** The invariant holds in every reachable state *)

Lemma preserves_ret {A} (a : A) : preserves_wf (ret a).
Proof. by intros e s. Qed.

Lemma preserves_lift {A} (r : result A) : preserves_wf (lift r).
Proof. by intros e s. Qed.

Lemma preserves_time_time : preserves_wf time_time.
Proof. by intros e s. Qed.

Lemma preserves_bind {A B} (c : M A) (k : A → M B) :
  preserves_wf c → (∀ a, preserves_wf (k a)) → preserves_wf (bind c k).
Proof.
  intros Hc Hk e s Hwf. unfold bind. specialize (Hc e s Hwf).
  destruct (c e s) as [[a|x] s1]; simpl in *; [by apply Hk | done].
Qed.

Lemma preserves_get_cached key : preserves_wf (get_cached key).
Proof.
  intros e s Hwf. by destruct (get_cached_frame key e s) as (-> & _).
Qed.

Lemma preserves_set_response key r :
  String.prefix "stock_" key = false → preserves_wf (set_cached key (PResponse r)).
Proof.
  intros Hkey e s Hwf. rewrite set_cached_run. simpl.
  apply map_Forall_insert_2; [|done]. intros Hp. congruence.
Qed.

Lemma preserves_get_stock_data symbol : preserves_wf (get_stock_data symbol).
Proof. intros e s Hwf. by apply get_stock_data_wf. Qed.

Lemma preserves_fetch symbols : preserves_wf (fetch_stocks_concurrent symbols).
Proof.
  intros e s Hwf.
  destruct (fetch_stocks_concurrent_quotes symbols e s Hwf) as (l & s' & H & _ & Hwf').
  by rewrite H.
Qed.

Lemma preserves_index_rows results : ∀ acc, preserves_wf (index_rows results acc).
Proof.
  induction results as [|d rest IH]; intros acc; simpl; [apply preserves_ret|].
  repeat (apply preserves_bind; [first [apply preserves_lift | apply preserves_time_time]|];
          intros ?).
  apply IH.
Qed.

Ltac preserves_step :=
  first
    [ apply preserves_ret | apply preserves_lift | apply preserves_time_time
    | apply preserves_get_cached | apply preserves_get_stock_data
    | apply preserves_fetch | apply preserves_index_rows
    | apply preserves_set_response; reflexivity
    | apply preserves_bind; [|intros ?] ].

Lemma serve_wf r e s : cache_wf (cache s) → cache_wf (cache (serve r e s)).
Proof.
  revert e s.
  destruct r as [| |symbol| | |q]; simpl;
    [change (preserves_wf get_indices) | change (preserves_wf get_stocks)
    | change (preserves_wf (get_single_stock symbol))
    | change (preserves_wf get_gainers) | change (preserves_wf get_losers)
    | change (preserves_wf (search_stocks q))].
  - unfold get_indices. preserves_step; [preserves_step|].
    destruct a; repeat preserves_step.
  - unfold get_stocks. preserves_step; [preserves_step|].
    destruct a; repeat preserves_step.
  - unfold get_single_stock. preserves_step; [preserves_step|].
    destruct a; repeat preserves_step.
  - unfold get_gainers. preserves_step; [preserves_step|].
    destruct a; repeat preserves_step.
  - unfold get_losers. preserves_step; [preserves_step|].
    destruct a; repeat preserves_step.
  - unfold search_stocks. preserves_step; [by intros e s|]. cbv zeta.
    preserves_step; [|preserves_step].
    destruct (negb _); preserves_step.
Qed.

(** Every state reached from the empty cache by serving requests satisfies
    the invariant. *)
Lemma reachable_wf (e : env) (requests : list request) :
  cache_wf (cache (foldl (fun s r => serve r e s) initial requests)).
Proof.
  assert (H : ∀ s, cache_wf (cache s) →
                   cache_wf (cache (foldl (fun s r => serve r e s) s requests))).
  { induction requests as [|r rest IH]; intros s Hwf; [done|].
    simpl. by apply IH, serve_wf. }
  apply H, map_Forall_empty.
Qed.

(** * Further properties *)

(** ** Serving from the cache *)

Lemma get_cached_fresh key e s d ts :
  cache s !! key = Some (d, ts) →
  (time_at e (clock_reads s) - ts < CACHE_TTL)%Q →
  get_cached key e s = (Ok (Some d), tick s).
Proof.
  intros Hk Ht. rewrite get_cached_run, Hk.
  destruct (Qlt_le_dec _ _) as [_|Hge]; [reflexivity|]. exfalso; lra.
Qed.

(** X1. After a fetch that went to the provider and got a quote, a further
    call for the same symbol, made while the stored entry is still there and
    less than 60 seconds after it was stored, returns the very same quote,
    asks the provider nothing and leaves the cache as it is. *)
Theorem fetch_then_hit (e : env) (s s1 : state) (symbol : string)
    (inf : Info.t) (hist : list Bar.t) (b : Bar.t) :
  get_cached ("stock_" +:+ symbol) e s = (Ok None, s1) →
  info (provider e (length (queries s1)) symbol) = Ok inf →
  history (provider e (length (queries s1)) symbol) = Ok hist →
  last hist = Some b →
  ∃ d s',
    get_stock_data symbol e s = (Ok (Some d), s') ∧
    cache s' !! ("stock_" +:+ symbol) = Some (d, time_at e (clock_reads s1)) ∧
    ∀ s2,
      cache s2 !! ("stock_" +:+ symbol) = cache s' !! ("stock_" +:+ symbol) →
      (time_at e (clock_reads s2) - time_at e (clock_reads s1) < CACHE_TTL)%Q →
      get_stock_data symbol e s2 = (Ok (Some d), tick s2).
Proof.
  intros Hmiss Hinfo Hhist Hlast.
  rewrite (get_stock_data_fresh _ _ _ _ _ _ _ Hmiss Hinfo Hhist Hlast).
  rewrite set_cached_run. eexists _, _. split; [reflexivity|]. simpl.
  rewrite lookup_insert_eq. split; [reflexivity|].
  intros s2 Hsame Ht. apply get_stock_data_hit.
  by apply (get_cached_fresh _ _ _ _ (time_at e (clock_reads s1))).
Qed.

Lemma fetch_then_hit_witness :
  ∃ d s',
    get_stock_data "INFY.NS" zero_close_env initial = (Ok (Some d), s') ∧
    get_stock_data "INFY.NS" zero_close_env s' = (Ok (Some d), tick s').
Proof.
  destruct (fetch_then_hit zero_close_env initial initial "INFY.NS"
              zero_close_info [flat_bar] flat_bar)
    as (d & s' & Hrun & Hstored & Hagain); try reflexivity.
  exists d, s'. split; [exact Hrun|]. apply Hagain; [reflexivity|].
  injection Hrun as _ <-. vm_compute. reflexivity.
Defined.

(** ** Signs survive the rounding *)



Lemma round2_null (x : Q) : (x == 0)%Q → (round2 x == 0)%Q.
Proof.
  destruct (round2_rounded2 x) as [[n Hn] Habs]. rewrite Hn in *.
  apply Qabs_Qle_condition in Habs. intros Hx.
  assert (H1 : (- (1 # 200) <= n # 100)%Q ∧ (n # 100 <= 1 # 200)%Q)
    by (set (v := (n # 100)%Q) in *; split; lra).
  destruct H1 as [Hlo Hhi]. unfold Qle, Qeq in *; simpl in *; lia.
Qed.




(** ** A quote without a previous close *)







(** ** Normalised symbols and case *)

Lemma endswith_append (s suffix : string) : endswith (s +:+ suffix) suffix = true.
Proof. apply endswith_spec. by exists s. Qed.

(** X4. A symbol without a market suffix and the same symbol with [".NS"]
    appended are one lookup: the same answer and the same state. *)
Theorem single_stock_suffix (e : env) (s : state) (symbol : string) :
  ¬ ends_with symbol ".NS" → ¬ ends_with symbol ".BO" →
  get_single_stock symbol e s = get_single_stock (symbol +:+ ".NS") e s.
Proof.
  intros Hns Hbo.
  pose proof (get_single_stock_run symbol e s) as H1.
  pose proof (get_single_stock_run (symbol +:+ ".NS") e s) as H2.
  simpl in H1, H2. rewrite H1, H2. rewrite endswith_append.
  destruct (endswith symbol ".NS") eqn:E1;
    [exfalso; by apply Hns, endswith_spec|].
  destruct (endswith symbol ".BO") eqn:E2;
    [exfalso; by apply Hbo, endswith_spec|].
  reflexivity.
Qed.

Lemma single_stock_suffix_witness :
  get_single_stock "INFY" rising_env initial
  = get_single_stock "INFY.NS" rising_env initial.
Proof.
  apply (single_stock_suffix rising_env initial "INFY").
  - intros H. apply endswith_spec in H. discriminate.
  - intros H. apply endswith_spec in H. discriminate.
Defined.

Lemma upper_ascii_idem (c : ascii) : upper_ascii (upper_ascii c) = upper_ascii c.
Proof.
  destruct c as [[] [] [] [] [] [] [] []]; reflexivity.
Qed.

Lemma upper_idem (s : string) : upper (upper s) = upper s.
Proof.
  induction s as [|c s IH]; [reflexivity|]. simpl. by rewrite upper_ascii_idem, IH.
Qed.

Lemma upper_ascii_only (s : string) :
  ascii_only s = true → ascii_only (upper s) = true.
Proof.
  induction s as [|c s IH]; [done|]. cbn [ascii_only upper].
  rewrite !andb_true_iff. intros [Hc Hs]. split; [|by apply IH].
  revert Hc. destruct c as [[] [] [] [] [] [] [] []]; vm_compute; congruence.
Qed.

(** X5. For a query of ASCII characters, search does not see the case of
    the letters: where the interpreter's [str.upper] does the usual on
    ASCII strings, the query and the query with its small letters
    capitalised get the same response in the same state, and the response
    names the capitalised query. *)
Theorem search_ignores_case (e : env) (s : state) (q : string) :
  ascii_upper e → ascii_only q = true →
  search_stocks (upper q) e s = search_stocks q e s ∧
  ∃ r, fst (search_stocks q e s) = Ok (PResponse r) ∧ query r = Some (upper q).
Proof.
  intros Hup Hq.
  assert (Hsame : str_upper e (upper q) = str_upper e q).
  { rewrite (Hup q Hq), (Hup _ (upper_ascii_only q Hq)). apply upper_idem. }
  split.
  - rewrite !search_stocks_run. by rewrite Hsame.
  - rewrite search_stocks_run. cbv zeta. unfold bind. rewrite (Hup q Hq).
    destruct (List.filter _ NIFTY_50_STOCKS) as [|sym ms]; cbn [empty negb].
    + unfold ret. by eexists.
    + destruct (fetch_stocks_concurrent_frame (sym :: ms) e s)
        as (results & s' & Hfetch & _).
      rewrite Hfetch. unfold ret. by eexists.
Qed.

Lemma search_ignores_case_witness :
  search_stocks "TATA" rising_env initial = search_stocks "tata" rising_env initial.
Proof.
  destruct (search_ignores_case rising_env initial "tata") as [Hsame _].
  - intros x _. reflexivity.
  - reflexivity.
  - exact Hsame.
Defined.

(** ** The response cache of the list views *)

Lemma stores_bind {A} (key : string) (c : M A) (k : A → M pyval) :
  (∀ a, stores key (k a)) → stores key (bind c k).
Proof.
  intros Hk e s v s'. unfold bind.
  destruct (c e s) as [[a|x] s1]; [by apply Hk | discriminate].
Qed.

Ltac stores_tail :=
  let e := fresh "e" in let s := fresh "s" in
  intros e s ? ?; unfold bind, time_time, set_cached, write_cache, ret; simpl;
  intros [= <- <-]; eexists; split; [reflexivity|]; simpl; apply lookup_insert_eq.

Lemma view_stores key view :
  (key, view) ∈ views →
  ∀ e s, fst (get_cached key e s) = Ok None → ∀ v s',
    view e s = (Ok v, s') →
    ∃ n, clock_reads s' = S n ∧ cache s' !! key = Some (v, time_at e n).
Proof.
  intros Hin e s Hmiss v s'. unfold views in Hin.
  repeat (apply elem_of_cons in Hin as [[= -> ->]|Hin]);
    [| | | |by apply elem_of_nil in Hin].
  all: match goal with |- ?f _ _ = _ → _ => unfold f end.
  all: unfold bind at 1;
    destruct (get_cached _ e s) as [r s1]; simpl in Hmiss; subst r.
  all: revert v s'; generalize e s1.
  all: repeat (lazymatch goal with
               | |- stores _ (bind time_time _) => fail
               | |- _ => apply stores_bind; intros ?
               end).
  all: stores_tail.
Qed.

Lemma view_cached key view e s v ts :
  (key, view) ∈ views →
  cache s !! key = Some (v, ts) →
  (time_at e (clock_reads s) - ts < CACHE_TTL)%Q →
  view e s = (Ok v, tick s).
Proof.
  intros Hin Hk Ht. pose proof (get_cached_fresh key e s v ts Hk Ht) as Hget.
  unfold views in Hin.
  repeat (apply elem_of_cons in Hin as [[= -> ->]|Hin]);
    [| | | |by apply elem_of_nil in Hin].
  all: match goal with |- ?f _ _ = _ => unfold f end.
  all: unfold bind at 1; by rewrite Hget.
Qed.

(** X6. A list view whose response is in the cache, stored less than 60
    seconds ago, answers with that response as it is: no pool is created,
    the provider is not asked and the cache does not change, whatever the
    per-symbol entries have become in the meantime. *)
Theorem view_hit (e : env) (s : state) (key : string) (view : M pyval)
    (v : pyval) (ts : Q) :
  (key, view) ∈ views →
  cache s !! key = Some (v, ts) →
  (time_at e (clock_reads s) - ts < CACHE_TTL)%Q →
  ∃ s', view e s = (Ok v, s') ∧
        cache s' = cache s ∧ queries s' = queries s ∧ pools s' = pools s.
Proof.
  intros Hin Hk Ht. exists (tick s).
  split; [by apply (view_cached key view e s v ts) | done].
Qed.

Lemma view_hit_witness :
  ∃ s', get_gainers ttl_env
          {| cache := {[ "gainers_response" := (sample_quote, 0%Q) ]};
             clock_reads := 2; queries := []; pools := 0 |}
        = (Ok sample_quote, s') ∧ pools s' = 0%nat.
Proof.
  destruct (view_hit ttl_env
              {| cache := {[ "gainers_response" := (sample_quote, 0%Q) ]};
                 clock_reads := 2; queries := []; pools := 0 |}
              "gainers_response" get_gainers sample_quote 0%Q)
    as (s' & Hrun & _ & _ & Hpools).
  - unfold views. right; right; left.
  - reflexivity.
  - vm_compute. reflexivity.
  - exists s'. split; [exact Hrun | exact Hpools].
Defined.

(** X7. On a well-formed cache, a list view that misses builds a response,
    returns it and stores it under its own key, stamped with the last clock
    reading; a further call of the view while that entry is there and
    younger than 60 seconds returns the identical response without any new
    fan-out. *)
Theorem view_round_trip (e : env) (s : state) (key : string) (view : M pyval) :
  (key, view) ∈ views →
  cache_wf (cache s) →
  fst (get_cached key e s) = Ok None →
  ∃ v s' n,
    view e s = (Ok v, s') ∧
    clock_reads s' = S n ∧
    cache s' !! key = Some (v, time_at e n) ∧
    ∀ s2, cache s2 !! key = cache s' !! key →
          (time_at e (clock_reads s2) - time_at e n < CACHE_TTL)%Q →
          view e s2 = (Ok v, tick s2).
Proof.
  intros Hin Hwf Hmiss.
  assert (Hrun : ∃ v s', view e s = (Ok v, s')).
  { pose proof Hin as Hin'. unfold views in Hin'.
    repeat (apply elem_of_cons in Hin' as [[= -> ->]|Hin']);
      [| | | |by apply elem_of_nil in Hin'].
    - destruct (get_indices_fresh e s Hwf Hmiss) as (? & ? & ? & H). eauto.
    - destruct (get_stocks_fresh e s Hwf Hmiss) as (? & ? & ? & H & _). eauto.
    - destruct (get_gainers_fresh e s Hwf Hmiss) as (? & ? & ? & H & _). eauto.
    - destruct (get_losers_fresh e s Hwf Hmiss) as (? & ? & ? & H & _). eauto. }
  destruct Hrun as (v & s' & Hrun).
  destruct (view_stores key view Hin e s Hmiss v s' Hrun) as (n & Hn & Hstored).
  exists v, s', n. repeat split; try done.
  intros s2 Hsame Ht. apply (view_cached key view e s2 v (time_at e n)); try done.
  by rewrite Hsame.
Qed.

Lemma view_round_trip_witness :
  ∃ v s' n,
    get_stocks rising_env initial = (Ok v, s') ∧
    cache s' !! "stocks_response" = Some (v, time_at rising_env n).
Proof.
  destruct (view_round_trip rising_env initial "stocks_response" get_stocks)
    as (v & s' & n & Hrun & _ & Hstored & _).
  - unfold views. right; left.
  - apply map_Forall_empty.
  - reflexivity.
  - exists v, s', n. split; [exact Hrun | exact Hstored].
Defined.

(** ** Invariants of the cache, route by route *)

Section keeps.
Variable I : gmap string (pyval * Q) → Prop.

Lemma keeps_ret {A} (a : A) : keeps I (ret a).
Proof. by intros e s. Qed.

Lemma keeps_lift {A} (r : result A) : keeps I (lift r).
Proof. by intros e s. Qed.

Lemma keeps_time_time : keeps I time_time.
Proof. by intros e s. Qed.

Lemma keeps_bind {A B} (c : M A) (k : A → M B) :
  keeps I c → (∀ a, keeps I (k a)) → keeps I (bind c k).
Proof.
  intros Hc Hk e s Hi. unfold bind. specialize (Hc e s Hi).
  destruct (c e s) as [[a|x] s1]; simpl in *; [by apply Hk | done].
Qed.

Lemma keeps_get_cached key : keeps I (get_cached key).
Proof. intros e s Hi. by destruct (get_cached_frame key e s) as (-> & _). Qed.

Lemma keeps_set_response key r :
  takes_responses I key → keeps I (set_cached key (PResponse r)).
Proof. intros Hkey e s Hi. rewrite set_cached_run. simpl. by apply Hkey. Qed.

Lemma keeps_get_stock_data symbol :
  takes_quotes I symbol → keeps I (get_stock_data symbol).
Proof.
  intros Hq e s Hi.
  pose proof (get_cached_frame ("stock_" +:+ symbol) e s) as (Hc & _).
  destruct (get_stock_data_cases symbol e s)
    as [(d & s1 & Hg & H)|[(s1 & Hg & H)|(s1 & inf & b & Hg & H)]];
    rewrite Hg in Hc; simpl in Hc; rewrite H; simpl; rewrite Hc; try done.
  by apply Hq.
Qed.

Lemma keeps_run_tasks tasks : ∀ e s,
  (∀ sym, sym ∈ tasks → takes_quotes I sym) →
  I (cache s) → I (cache (snd (run_tasks tasks e s))).
Proof.
  induction tasks as [|symbol rest IH]; intros e s Hq Hi; simpl; [done|].
  assert (H1 : I (cache (snd (get_stock_data symbol e s)))).
  { apply keeps_get_stock_data; [|done]. apply Hq. left. }
  destruct (get_stock_data symbol e s) as [r s1]. simpl in H1.
  assert (H2 : I (cache (snd (run_tasks rest e s1)))).
  { apply IH; [|done]. intros sym Hsym. apply Hq. by right. }
  by destruct (run_tasks rest e s1) as [fs s2].
Qed.

Lemma keeps_fetch symbols :
  (∀ sym, sym ∈ symbols → takes_quotes I sym) →
  keeps I (fetch_stocks_concurrent symbols).
Proof.
  intros Hq e s Hi. unfold fetch_stocks_concurrent, bind, submit_all, lift.
  set (s0 := {| cache := cache s; clock_reads := clock_reads s;
                queries := queries s; pools := S (pools s) |}).
  set (tasks := omap (fun i => symbols !! i) (completion e (pools s) (length symbols))).
  assert (H : I (cache (snd (run_tasks tasks e s0)))).
  { apply keeps_run_tasks; [|done]. intros sym Hsym. apply Hq.
    by apply (completed_subseteq symbols (completion e (pools s) (length symbols))). }
  by destruct (run_tasks tasks e s0) as [fs s1].
Qed.

Lemma keeps_index_rows results : ∀ acc, keeps I (index_rows results acc).
Proof.
  induction results as [|d rest IH]; intros acc; simpl; [apply keeps_ret|].
  repeat (apply keeps_bind; [first [apply keeps_lift | apply keeps_time_time]|];
          intros ?).
  apply IH.
Qed.

Ltac keeps_step :=
  first
    [ apply keeps_ret | apply keeps_lift | apply keeps_time_time
    | apply keeps_get_cached | apply keeps_index_rows
    | apply keeps_set_response;
      match goal with
      | H : ∀ key, _ → takes_responses _ key |- _ => apply H
      end; unfold views; simpl; repeat constructor
    | apply keeps_bind; [|intros ?] ].

(** Serving a request keeps [I] when [I] survives the stores the request
    can make. *)
Lemma serve_keeps (r : request) (e : env) (s : state) :
  (∀ sym, sym ∈ universe ∨ ¬ list_request r → takes_quotes I sym) →
  (∀ key, key ∈ fst <$> views → takes_responses I key) →
  I (cache s) → I (cache (serve r e s)).
Proof.
  intros Hq Hr.
  assert (Hidx : ∀ sym, sym ∈ snd <$> NSE_INDICES → takes_quotes I sym).
  { intros sym Hsym. apply Hq. left. apply elem_of_app. by left. }
  assert (Hstk : ∀ l sym, l ⊆ NIFTY_50_STOCKS → sym ∈ l → takes_quotes I sym).
  { intros l sym Hl Hsym. apply Hq. left. apply elem_of_app. right. by apply Hl. }
  revert e s.
  destruct r as [| |symbol| | |q]; simpl;
    [change (keeps I get_indices) | change (keeps I get_stocks)
    | change (keeps I (get_single_stock symbol))
    | change (keeps I get_gainers) | change (keeps I get_losers)
    | change (keeps I (search_stocks q))].
  - unfold get_indices. keeps_step; [keeps_step|]. destruct a; [keeps_step|].
    keeps_step; [by apply keeps_fetch|]. repeat keeps_step.
  - unfold get_stocks. keeps_step; [keeps_step|]. destruct a; [keeps_step|].
    keeps_step; [apply keeps_fetch; intros sym Hsym;
                apply (Hstk _ sym (subseteq_take _ _) Hsym)|]. repeat keeps_step.
  - unfold get_single_stock. keeps_step.
    + apply keeps_get_stock_data, Hq. right. by intros [].
    + destruct a; repeat keeps_step.
  - unfold get_gainers. keeps_step; [keeps_step|]. destruct a; [keeps_step|].
    keeps_step; [apply keeps_fetch; intros sym Hsym;
                apply (Hstk _ sym (subseteq_take _ _) Hsym)|]. repeat keeps_step.
  - unfold get_losers. keeps_step; [keeps_step|]. destruct a; [keeps_step|].
    keeps_step; [apply keeps_fetch; intros sym Hsym;
                apply (Hstk _ sym (subseteq_take _ _) Hsym)|]. repeat keeps_step.
  - unfold search_stocks. keeps_step; [by intros e s|]. cbv zeta.
    keeps_step; [|keeps_step].
    destruct (negb _); [|keeps_step].
    apply keeps_fetch. intros sym Hsym. apply (Hstk NIFTY_50_STOCKS sym); [done|].
    rewrite list_elem_of_In in Hsym. apply filter_In in Hsym as [Hsym _].
    by rewrite list_elem_of_In.
Qed.
End keeps.

Lemma symbols_takes_quotes symbol : takes_quotes cache_symbols symbol.
Proof.
  intros c inf b t Hc. apply map_Forall_insert_2; [|done].
  intros sym Hsym. apply (inj (String.append "stock_")) in Hsym as <-.
  by eexists.
Qed.

Lemma symbols_takes_responses key :
  key ∈ fst <$> views → takes_responses cache_symbols key.
Proof.
  intros Hkey c r t Hc. apply map_Forall_insert_2; [|done].
  intros sym Hsym. unfold views in Hkey. simpl in Hkey, Hsym.
  repeat (apply elem_of_cons in Hkey as [->|Hkey]); try discriminate.
  by apply elem_of_nil in Hkey.
Qed.

Lemma reachable_symbols (e : env) (requests : list request) :
  cache_symbols (cache (foldl (fun s r => serve r e s) initial requests)).
Proof.
  assert (H : ∀ s, cache_symbols (cache s) →
                   cache_symbols (cache (foldl (fun s r => serve r e s) s requests))).
  { induction requests as [|r rest IH]; intros s Hs; [done|].
    simpl. apply IH, serve_keeps; [|apply symbols_takes_responses|done].
    intros sym _. apply symbols_takes_quotes. }
  apply H, map_Forall_empty.
Qed.

Lemma get_stock_data_symbol symbol e s d :
  cache_symbols (cache s) →
  fst (get_stock_data symbol e s) = Ok (Some d) →
  ∃ q, d = PQuote q ∧ Quote.symbol q = symbol.
Proof.
  intros Hs.
  destruct (get_stock_data_cases symbol e s)
    as [(d' & s1 & Hg & H)|[(s1 & Hg & H)|(s1 & inf & b & Hg & H)]];
    rewrite H; simpl; intros [= <-].
  - apply get_cached_hit in Hg as [ts Hts].
    by apply (map_Forall_lookup_1 _ _ _ _ Hs Hts symbol).
  - by eexists.
Qed.

(** X8. In every state the server can reach, whatever was answered before,
    a fetch for a symbol that returns anything returns a quote of that very
    symbol: a cached entry is never handed out under another symbol's
    name. *)
Theorem fetched_symbol (e : env) (requests : list request) (symbol : string)
    (d : pyval) :
  fst (get_stock_data symbol e (foldl (fun s r => serve r e s) initial requests))
  = Ok (Some d) →
  ∃ q, d = PQuote q ∧ Quote.symbol q = symbol.
Proof.
  apply get_stock_data_symbol, reachable_symbols.
Qed.

Lemma fetched_symbol_witness :
  ∃ q, fst (get_stock_data "TCS.NS" rising_env
              (foldl (fun s r => serve r rising_env s) initial [Stocks; Stock "TCS"]))
       = Ok (Some (PQuote q)) ∧ Quote.symbol q = "TCS.NS".
Proof.
  destruct (fetched_symbol rising_env [Stocks; Stock "TCS"] "TCS.NS"
              (PQuote (assembled "TCS.NS" rising_info rising_bar)))
    as (q & Hq & Hsym).
  - vm_compute. reflexivity.
  - exists q. split; [|exact Hsym]. rewrite <- Hq. vm_compute. reflexivity.
Defined.

Lemma known_takes_quotes symbol :
  symbol ∈ universe → takes_quotes cache_known symbol.
Proof.
  intros Hsym c inf b t Hc. apply map_Forall_insert_2; [|done].
  unfold known_keys. apply elem_of_app. right.
  apply list_elem_of_fmap. by exists symbol.
Qed.

Lemma known_takes_responses key :
  key ∈ fst <$> views → takes_responses cache_known key.
Proof.
  intros Hkey c r t Hc. apply map_Forall_insert_2; [|done].
  unfold known_keys. apply elem_of_app. by left.
Qed.

(** X9. As long as no single-stock lookup is served, the cache never holds
    a key besides the four response keys and the [stock_] keys of the 6
    index symbols and the 30 listed stocks: at most 40 entries, however
    many requests are served. *)
Theorem bounded_keys (e : env) (requests : list request) :
  Forall list_request requests →
  let s := foldl (fun s r => serve r e s) initial requests in
  (∀ k, is_Some (cache s !! k) → k ∈ known_keys) ∧ (size (cache s) ≤ 40)%nat.
Proof.
  intros Hreqs s.
  assert (Hknown : cache_known (cache s)).
  { subst s.
    assert (H : ∀ s0, cache_known (cache s0) →
              cache_known (cache (foldl (fun s r => serve r e s) s0 requests))).
    { induction Hreqs as [|r rest Hr _ IH]; intros s0 Hs0; [done|].
      simpl. apply IH, serve_keeps; [|apply known_takes_responses|done].
      intros sym [Hsym|Hno]; [by apply known_takes_quotes | done]. }
    apply H, map_Forall_empty. }
  split.
  - intros k [vt Hk]. by apply (map_Forall_lookup_1 _ _ _ _ Hknown Hk).
  - rewrite <- size_dom.
    transitivity (size (list_to_set known_keys : gset string)).
    + apply subseteq_size. intros k Hk. apply elem_of_dom in Hk as [vt Hk].
      apply elem_of_list_to_set. by apply (map_Forall_lookup_1 _ _ _ _ Hknown Hk).
    + rewrite size_list_to_set; [reflexivity|].
      by apply (bool_decide_unpack _); vm_compute.
Qed.

Lemma bounded_keys_witness :
  (size (cache (foldl (fun s r => serve r rising_env s) initial
                  [Gainers; Search "tata"; Indices])) ≤ 40)%nat.
Proof.
  apply (bounded_keys rising_env [Gainers; Search "tata"; Indices]).
  repeat constructor.
Defined.

(** ** What the sorted views keep of the fetched quotes *)

Lemma movers_perm (p : pyval → result bool) (pb : Q → bool) (reverse : bool)
    (all_stocks : list pyval) :
  (∀ d, is_quote d → p d = Ok (pb (cp_of d))) →
  Forall is_quote all_stocks →
  ∃ sorted,
    filterM p all_stocks = Ok (List.filter (fun d => pb (cp_of d)) all_stocks) ∧
    list_sort getitem_changePercent reverse
      (List.filter (fun d => pb (cp_of d)) all_stocks) = Ok sorted ∧
    sorted ≡ₚ List.filter (fun d => pb (cp_of d)) all_stocks ∧
    StronglySorted
      (fun a b => if reverse then (cp_of b <= cp_of a)%Q else (cp_of a <= cp_of b)%Q)
      sorted.
Proof.
  intros Hp Hall. rewrite Forall_forall in Hall.
  destruct (list_sort_spec cp_of getitem_changePercent reverse
              (List.filter (fun d => pb (cp_of d)) all_stocks))
    as (sorted & Hsort & Hperm & Hsorted).
  { intros d Hd. apply getitem_changePercent_quote, Hall.
    rewrite list_elem_of_In in Hd. apply filter_In in Hd as [Hd _].
    by rewrite list_elem_of_In. }
  exists sorted. split; [|done].
  apply filterM_total. intros d Hd. by apply Hp, Hall.
Qed.

(** What is cut off a sorted list comes after everything that is kept. *)
Lemma top_cut {A} (R : relation A) (n : nat) (sorted : list A) (d : A) :
  StronglySorted R sorted → d ∈ sorted →
  d ∈ take n sorted ∨
  (length (take n sorted) = n ∧ ∀ d', d' ∈ take n sorted → R d' d).
Proof.
  intros Hs Hd. destruct (decide (length sorted ≤ n)%nat) as [Hle|Hgt].
  { left. by rewrite take_ge. }
  rewrite <- (take_drop n sorted) in Hs, Hd.
  apply elem_of_app in Hd as [Hd|Hd]; [by left|]. right.
  split; [apply length_take_le; lia|].
  intros d' Hd'. by apply (StronglySorted_app_1_elem_of R _ _ d' d Hs).
Qed.

Lemma filter_elem_of {A} (f : A → bool) (l : list A) (x : A) :
  x ∈ List.filter f l ↔ x ∈ l ∧ f x = true.
Proof. by rewrite list_elem_of_In, filter_In, <- list_elem_of_In. Qed.

Lemma Qlt_bool_true (a b : Q) : Qlt_bool a b = true ↔ (a < b)%Q.
Proof.
  unfold Qlt_bool. destruct (Qlt_le_dec a b) as [Hlt|Hge]; split; try done.
  intros Hlt. exfalso. lra.
Qed.

(** X10. The gainers view keeps the best: the data of a fresh response are
    fetched quotes, as many as there are fetched quotes with a positive
    [changePercent] up to 10, and a fetched quote with a positive
    [changePercent] is left out only when the 10 places are taken by quotes
    that are at least as high. *)
Theorem top_gainers (e : env) (s : state) :
  cache_wf (cache s) →
  fst (get_cached "gainers_response" e s) = Ok None →
  ∃ s1 fetched s2 g,
    get_cached "gainers_response" e s = (Ok None, s1) ∧
    fetch_stocks_concurrent (take 30 NIFTY_50_STOCKS) e s1 = (Ok fetched, s2) ∧
    fst (get_gainers e s) = Ok (PResponse g) ∧
    data g ⊆ fetched ∧
    length (data g)
    = (10 `min` length (List.filter (fun d => Qlt_bool 0 (cp_of d)) fetched))%nat ∧
    ∀ d, d ∈ fetched → (0 < cp_of d)%Q →
         d ∈ data g ∨
         (length (data g) = 10%nat ∧ ∀ d', d' ∈ data g → (cp_of d <= cp_of d')%Q).
Proof.
  intros Hwf Hmiss. unfold get_gainers, bind at 1.
  pose proof (get_cached_frame "gainers_response" e s) as (Hc & _).
  destruct (get_cached "gainers_response" e s) as [r s1].
  simpl in Hmiss, Hc; subst r. rewrite <- Hc in Hwf.
  destruct (fetch_stocks_concurrent_quotes (take 30 NIFTY_50_STOCKS) e s1 Hwf)
    as (fetched & s2 & Hfetch & Hq & _).
  unfold bind at 1. rewrite Hfetch.
  destruct (movers_perm
              (fun s => let? cp := getitem_changePercent s in Ok (Qlt_bool 0 cp))
              (Qlt_bool 0) true fetched)
    as (sorted & Hfilter & Hsort & Hperm & Hsorted); [|done|].
  { by intros d [q ->]. }
  unfold bind at 1, lift at 1. rewrite Hfilter.
  unfold bind at 1, lift at 1. rewrite Hsort.
  eexists s1, fetched, s2, _. split; [reflexivity|]. split; [exact Hfetch|].
  split; [reflexivity|]. simpl. split; [|split].
  - intros d Hd. apply subseteq_take in Hd. rewrite Hperm in Hd.
    by apply filter_elem_of in Hd as [Hd _].
  - by rewrite length_take, Hperm.
  - intros d Hd Hpos.
    apply (top_cut _ 10 sorted d Hsorted).
    rewrite Hperm. apply filter_elem_of. split; [done|]. by apply Qlt_bool_true.
Qed.

Lemma top_gainers_witness :
  ∃ g, fst (get_gainers lively_env initial) = Ok (PResponse g) ∧
       (length (data g) ≤ 10)%nat.
Proof.
  destruct (top_gainers lively_env initial)
    as (s1 & fetched & s2 & g & _ & _ & Hg & _ & Hlen & _).
  - apply map_Forall_empty.
  - reflexivity.
  - exists g. split; [exact Hg|]. rewrite Hlen. apply Nat.le_min_l.
Defined.

(** X11. The losers view keeps the worst: the data of a fresh response are
    fetched quotes, as many as there are fetched quotes with a negative
    [changePercent] up to 10, and a fetched quote with a negative
    [changePercent] is left out only when the 10 places are taken by quotes
    that are at least as low. *)
Theorem top_losers (e : env) (s : state) :
  cache_wf (cache s) →
  fst (get_cached "losers_response" e s) = Ok None →
  ∃ s1 fetched s2 l,
    get_cached "losers_response" e s = (Ok None, s1) ∧
    fetch_stocks_concurrent (take 30 NIFTY_50_STOCKS) e s1 = (Ok fetched, s2) ∧
    fst (get_losers e s) = Ok (PResponse l) ∧
    data l ⊆ fetched ∧
    length (data l)
    = (10 `min` length (List.filter (fun d => Qlt_bool (cp_of d) 0) fetched))%nat ∧
    ∀ d, d ∈ fetched → (cp_of d < 0)%Q →
         d ∈ data l ∨
         (length (data l) = 10%nat ∧ ∀ d', d' ∈ data l → (cp_of d' <= cp_of d)%Q).
Proof.
  intros Hwf Hmiss. unfold get_losers, bind at 1.
  pose proof (get_cached_frame "losers_response" e s) as (Hc & _).
  destruct (get_cached "losers_response" e s) as [r s1].
  simpl in Hmiss, Hc; subst r. rewrite <- Hc in Hwf.
  destruct (fetch_stocks_concurrent_quotes (take 30 NIFTY_50_STOCKS) e s1 Hwf)
    as (fetched & s2 & Hfetch & Hq & _).
  unfold bind at 1. rewrite Hfetch.
  destruct (movers_perm
              (fun s => let? cp := getitem_changePercent s in Ok (Qlt_bool cp 0))
              (fun cp => Qlt_bool cp 0) false fetched)
    as (sorted & Hfilter & Hsort & Hperm & Hsorted); [|done|].
  { by intros d [q ->]. }
  unfold bind at 1, lift at 1. rewrite Hfilter.
  unfold bind at 1, lift at 1. rewrite Hsort.
  eexists s1, fetched, s2, _. split; [reflexivity|]. split; [exact Hfetch|].
  split; [reflexivity|]. simpl. split; [|split].
  - intros d Hd. apply subseteq_take in Hd. rewrite Hperm in Hd.
    by apply filter_elem_of in Hd as [Hd _].
  - by rewrite length_take, Hperm.
  - intros d Hd Hneg.
    apply (top_cut _ 10 sorted d Hsorted).
    rewrite Hperm. apply filter_elem_of. split; [done|]. by apply Qlt_bool_true.
Qed.

Lemma top_losers_witness :
  ∃ l, fst (get_losers lively_env initial) = Ok (PResponse l) ∧
       (length (data l) ≤ 10)%nat.
Proof.
  destruct (top_losers lively_env initial)
    as (s1 & fetched & s2 & l & _ & _ & Hl & _ & Hlen & _).
  - apply map_Forall_empty.
  - reflexivity.
  - exists l. split; [exact Hl|]. rewrite Hlen. apply Nat.le_min_l.
Defined.



(** ** The rows of the indices view *)

Lemma index_rows_mirror (qs : list Quote.t) : ∀ acc e s,
  ∃ rows s',
    index_rows (PQuote <$> qs) acc e s = (Ok (acc ++ (PIndex <$> rows)), s') ∧
    Forall2 mirrors qs rows.
Proof.
  induction qs as [|q qs IH]; intros acc e s.
  { exists [], s. split; [|constructor]. simpl. by rewrite app_nil_r. }
  simpl. unfold bind, lift, time_time. simpl.
  match goal with
  | |- context [index_rows _ (acc ++ [PIndex ?i]) e ?s1] =>
      destruct (IH (acc ++ [PIndex i]) e s1) as (rows & s' & Hrun & Hrows);
      exists (i :: rows), s'
  end.
  split.
  - rewrite <- app_assoc in Hrun. exact Hrun.
  - constructor; [|done]. by repeat split.
Qed.

Lemma index_name (sym : string) :
  sym ∈ snd <$> NSE_INDICES →
  (default sym (symbol_to_name !! sym), sym) ∈ NSE_INDICES.
Proof.
  unfold NSE_INDICES. simpl. intros Hsym.
  repeat (apply elem_of_cons in Hsym as [->|Hsym]);
    [| | | | | |by apply elem_of_nil in Hsym].
  all: vm_compute; repeat constructor.
Qed.

Lemma run_tasks_symbols tasks : ∀ e s,
  cache_symbols (cache s) →
  Forall (fun d => ∃ q, d = PQuote q ∧ Quote.symbol q ∈ tasks)
    (successes (fst (run_tasks tasks e s))).
Proof.
  induction tasks as [|symbol rest IH]; intros e s Hs; simpl; [constructor|].
  pose proof (get_stock_data_symbol symbol e s) as Hsym.
  pose proof (keeps_get_stock_data cache_symbols symbol
                (symbols_takes_quotes symbol) e s Hs) as Hs1.
  destruct (get_stock_data symbol e s) as [r s1]. simpl in Hsym, Hs1.
  specialize (IH e s1 Hs1). destruct (run_tasks rest e s1) as [fs s2].
  simpl in *. unfold successes in *. simpl.
  assert (Hrest : Forall (fun d => ∃ q, d = PQuote q ∧ Quote.symbol q ∈ symbol :: rest)
                    (omap (fun f : future =>
                             match snd f with Ok (Some d) => Some d | _ => None end) fs)).
  { eapply Forall_impl; [exact IH|]. intros d (q & -> & Hq). exists q.
    split; [done|]. by right. }
  destruct r as [[d|]|x]; simpl; try done.
  constructor; [|done]. destruct (Hsym d Hs eq_refl) as (q & -> & <-).
  exists q. split; [done|]. left.
Qed.

Lemma fetch_symbols symbols e s :
  cache_symbols (cache s) →
  ∃ qs s',
    fetch_stocks_concurrent symbols e s = (Ok (PQuote <$> qs), s') ∧
    Forall (fun q => Quote.symbol q ∈ symbols) qs.
Proof.
  intros Hs. unfold fetch_stocks_concurrent, bind, submit_all, lift.
  set (s0 := {| cache := cache s; clock_reads := clock_reads s;
                queries := queries s; pools := S (pools s) |}).
  set (tasks := omap (fun i => symbols !! i) (completion e (pools s) (length symbols))).
  pose proof (run_tasks_spec tasks e s0) as [_ Hret].
  pose proof (run_tasks_symbols tasks e s0 Hs) as Hsyms.
  pose proof (completed_subseteq symbols (completion e (pools s) (length symbols)))
    as Hsub. fold tasks in Hsub.
  destruct (run_tasks tasks e s0) as [fs s1]. simpl in *.
  rewrite (gather_returned fs [] Hret). simpl.
  assert (Hqs : ∃ qs, successes fs = PQuote <$> qs ∧
                      Forall (fun q => Quote.symbol q ∈ symbols) qs).
  { induction Hsyms as [|d l (q & -> & Hq) _ (qs & -> & Hqs)].
    - by exists [].
    - exists (q :: qs). split; [done|]. constructor; [by apply Hsub | done]. }
  destruct Hqs as (qs & -> & Hqs). by exists qs, s1.
Qed.

(** X13. On a cache whose [stock_] entries carry their own symbols, a fresh
    indices response has one row per fetched quote, in the order the quotes
    came back, with the quote's symbol, price, change and [changePercent];
    and every row's name and symbol are a pair of the table of indices. *)
Theorem index_rows_named (e : env) (s : state) :
  cache_symbols (cache s) →
  fst (get_cached "indices_response" e s) = Ok None →
  ∃ s1 qs s2 r rows,
    get_cached "indices_response" e s = (Ok None, s1) ∧
    fetch_stocks_concurrent (snd <$> NSE_INDICES) e s1 = (Ok (PQuote <$> qs), s2) ∧
    fst (get_indices e s) = Ok (PResponse r) ∧
    data r = PIndex <$> rows ∧
    Forall2 mirrors qs rows ∧
    Forall (fun i => (IndexRow.name i, IndexRow.symbol i) ∈ NSE_INDICES) rows.
Proof.
  intros Hs Hmiss. unfold get_indices, bind at 1.
  pose proof (get_cached_frame "indices_response" e s) as (Hc & _).
  destruct (get_cached "indices_response" e s) as [r s1].
  simpl in Hmiss, Hc; subst r. rewrite <- Hc in Hs.
  destruct (fetch_symbols (snd <$> NSE_INDICES) e s1 Hs) as (qs & s2 & Hfetch & Hqs).
  unfold bind at 1. rewrite Hfetch.
  destruct (index_rows_mirror qs [] e s2) as (rows & s3 & Hrows & Hmirror).
  unfold bind at 1. rewrite Hrows. simpl.
  eexists s1, qs, s2, _, rows. split; [reflexivity|]. split; [exact Hfetch|].
  split; [reflexivity|]. simpl. split; [reflexivity|]. split; [exact Hmirror|].
  clear Hrows Hfetch. induction Hmirror as [|q i qs rows Hqi _ IH]; [constructor|].
  apply Forall_cons in Hqs as [Hq Hqs]. constructor; [|by apply IH].
  destruct Hqi as (Hsym & _ & _ & _ & Hname). rewrite Hname, Hsym.
  by apply index_name.
Qed.

Lemma index_rows_named_witness :
  ∃ r rows, fst (get_indices rising_env initial) = Ok (PResponse r) ∧
            data r = PIndex <$> rows ∧
            Forall (fun i => (IndexRow.name i, IndexRow.symbol i) ∈ NSE_INDICES) rows.
Proof.
  destruct (index_rows_named rising_env initial)
    as (s1 & qs & s2 & r & rows & _ & _ & Hr & Hdata & _ & Hnames).
  - apply map_Forall_empty.
  - reflexivity.
  - exists r, rows. split; [exact Hr|]. split; [exact Hdata | exact Hnames].
Defined.

(** ** No route fails *)

Lemma view_answers key view e s :
  (key, view) ∈ views → cache_wf (cache s) → ∃ v, fst (view e s) = Ok v.
Proof.
  intros Hin Hwf.
  destruct (get_cached_ok key e s) as [[c|] Hget].
  - pose proof Hin as Hin'. unfold views in Hin'.
    repeat (apply elem_of_cons in Hin' as [[= -> ->]|Hin']);
      [| | | |by apply elem_of_nil in Hin'].
    all: match goal with |- ∃ v, fst (?f _ _) = _ => unfold f end.
    all: unfold bind at 1;
      destruct (get_cached _ e s) as [r s1]; simpl in Hget; subst r.
    all: by exists c.
  - unfold views in Hin.
    repeat (apply elem_of_cons in Hin as [[= -> ->]|Hin]);
      [| | | |by apply elem_of_nil in Hin].
    + destruct (get_indices_fresh e s Hwf Hget) as (? & ? & ? & H).
      rewrite H. by eexists.
    + destruct (get_stocks_fresh e s Hwf Hget) as (? & ? & ? & H & _).
      rewrite H. by eexists.
    + destruct (get_gainers_fresh e s Hwf Hget) as (? & ? & ? & H & _).
      rewrite H. by eexists.
    + destruct (get_losers_fresh e s Hwf Hget) as (? & ? & ? & H & _).
      rewrite H. by eexists.
Qed.

(** X14. However many requests of whatever kind were served since the
    start, no route fails: the four list views, the single-stock lookup for
    any symbol and the search for any query all return a response, on a hit
    as on a miss and whatever the provider does. *)
Theorem routes_never_raise (e : env) (requests : list request)
    (symbol q : string) :
  let s := foldl (fun s r => serve r e s) initial requests in
  (∀ key view, (key, view) ∈ views → ∃ v, fst (view e s) = Ok v) ∧
  (∃ v, fst (get_single_stock symbol e s) = Ok v) ∧
  (∃ v, fst (search_stocks q e s) = Ok v).
Proof.
  intros s. pose proof (reachable_wf e requests) as Hwf. fold s in Hwf.
  split; [|split].
  - intros key view Hin. by apply (view_answers key).
  - pose proof (get_single_stock_run symbol e s) as Hrun. simpl in Hrun.
    rewrite Hrun.
    match goal with
    | |- context [get_stock_data ?u e s] =>
        destruct (get_stock_data_total u e s) as [o Ho];
        destruct (get_stock_data u e s) as [r' s2]
    end.
    simpl in Ho; subst r'. destruct o; by eexists.
  - rewrite search_stocks_run. cbv zeta. unfold bind.
    destruct (List.filter _ NIFTY_50_STOCKS) as [|m ms]; cbn [empty negb].
    + unfold ret. by eexists.
    + destruct (fetch_stocks_concurrent_frame (m :: ms) e s)
        as (results & s' & Hfetch & _).
      rewrite Hfetch. unfold ret. by eexists.
Qed.

(** ** What a search returns *)

(** X15. On a cache whose [stock_] entries carry their own symbols, every
    entry of a search response is a quote of a listed symbol whose
    upper-case form contains the upper-case query, both taken by the
    interpreter's [str.upper], whatever that does to the query. *)
Theorem search_results_match (e : env) (s : state) (q : string) :
  cache_symbols (cache s) →
  ∃ r qs,
    fst (search_stocks q e s) = Ok (PResponse r) ∧
    data r = PQuote <$> qs ∧
    Forall (fun quote =>
              Quote.symbol quote ∈ NIFTY_50_STOCKS ∧
              is_substring (str_upper e q) (str_upper e (Quote.symbol quote))) qs.
Proof.
  intros Hs. rewrite search_stocks_run. cbv zeta. unfold bind.
  destruct (List.filter (fun sym => contains (str_upper e q) (str_upper e sym))
              NIFTY_50_STOCKS)
    as [|m ms] eqn:Hm; cbn [empty negb].
  - unfold ret. eexists _, []. split; [reflexivity|]. split; [reflexivity|constructor].
  - destruct (fetch_symbols (m :: ms) e s Hs) as (qs & s' & Hfetch & Hqs).
    rewrite Hfetch. unfold ret. eexists _, qs.
    split; [reflexivity|]. split; [reflexivity|].
    eapply Forall_impl; [exact Hqs|]. intros quote Hin. simpl in Hin.
    rewrite <- Hm in Hin. apply filter_elem_of in Hin as [Hin Hc].
    split; [done|]. by apply contains_spec.
Qed.

Lemma search_results_match_witness :
  ∃ r qs, fst (search_stocks "tata" rising_env initial) = Ok (PResponse r) ∧
          data r = PQuote <$> qs ∧
          Forall (fun quote => Quote.symbol quote ∈ NIFTY_50_STOCKS) qs.
Proof.
  destruct (search_results_match rising_env initial "tata")
    as (r & qs & Hr & Hdata & Hqs).
  - apply map_Forall_empty.
  - exists r, qs. split; [exact Hr|]. split; [exact Hdata|].
    eapply Forall_impl; [exact Hqs|]. intros quote [Hin _]. exact Hin.
Defined.

(** ** The load a fan-out puts on the provider *)

Lemma run_tasks_load tasks : ∀ e s,
  (length (queries (snd (run_tasks tasks e s))) ≤ length (queries s) + length tasks)%nat.
Proof.
  induction tasks as [|symbol rest IH]; intros e s; simpl; [lia|].
  pose proof (get_stock_data_frame symbol e s) as (_ & Hq & _).
  destruct (get_stock_data symbol e s) as [r s1]. simpl in Hq.
  specialize (IH e s1). destruct (run_tasks rest e s1) as [fs s2]. simpl in *.
  destruct Hq as [Hq|Hq]; rewrite Hq in IH; simpl in IH; lia.
Qed.

(** X16. A fan-out asks the provider at most once per submitted symbol:
    when the tasks finish in some order of the submitted ones, the number of
    provider requests grows by at most the number of symbols. *)
Theorem fanout_load (e : env) (s : state) (symbols : list string) :
  completion e (pools s) (length symbols) ≡ₚ seq 0 (length symbols) →
  (length (queries (snd (fetch_stocks_concurrent symbols e s)))
   ≤ length (queries s) + length symbols)%nat.
Proof.
  intros Hperm. unfold fetch_stocks_concurrent, bind, submit_all, lift.
  set (s0 := {| cache := cache s; clock_reads := clock_reads s;
                queries := queries s; pools := S (pools s) |}).
  set (tasks := omap (fun i => symbols !! i) (completion e (pools s) (length symbols))).
  pose proof (run_tasks_load tasks e s0) as Hload.
  assert (Hlen : length tasks = length symbols).
  { apply Permutation_length. by apply completed_permutation. }
  destruct (run_tasks tasks e s0) as [fs s1]. simpl in *.
  destruct (gather fs []); simpl; lia.
Qed.

Lemma fanout_load_witness :
  (length (queries (snd (fetch_stocks_concurrent ["RELIANCE.NS"; "TCS.NS"; "INFY.NS"]
                           patchy_env initial))) ≤ 0 + 3)%nat.
Proof.
  apply (fanout_load patchy_env initial ["RELIANCE.NS"; "TCS.NS"; "INFY.NS"]).
  change (rev (seq 0 3) ≡ₚ seq 0 3). symmetry. apply Permutation_rev.
Defined.

Lemma run_tasks_cached tasks : ∀ e s,
  (∀ sym, sym ∈ tasks → always_fresh e s sym) →
  cache (snd (run_tasks tasks e s)) = cache s ∧
  queries (snd (run_tasks tasks e s)) = queries s ∧
  Forall returned (fst (run_tasks tasks e s)) ∧
  Forall2 (fun sym d => ∃ ts, cache s !! ("stock_" +:+ sym) = Some (d, ts))
    tasks (successes (fst (run_tasks tasks e s))).
Proof.
  induction tasks as [|symbol rest IH]; intros e s Hfresh; simpl.
  { repeat split; constructor. }
  destruct (Hfresh symbol) as (d & ts & Hk & Ht); [left|].
  pose proof (get_cached_fresh _ e s d ts Hk (Ht _)) as Hget.
  rewrite (get_stock_data_hit _ _ _ _ _ Hget).
  destruct (IH e (tick s)) as (Hc & Hq & Hret & Hall).
  { intros sym Hsym. destruct (Hfresh sym) as (d' & ts' & Hk' & Ht'); [by right|].
    by exists d', ts'. }
  destruct (run_tasks rest e (tick s)) as [fs s2]. simpl in *.
  split; [done|]. split; [done|]. split; [constructor; [by eexists | done]|].
  unfold successes in *. simpl. constructor; [by exists ts | exact Hall].
Qed.

(** X17. A fan-out over symbols that all have an unexpired entry is served
    from the cache alone: it asks the provider nothing, leaves the cache as
    it was, and returns one value per submitted symbol and no other, namely
    the value cached under the symbol's key, in the order in which the
    tasks finish. *)
Theorem cached_fanout (e : env) (s : state) (symbols : list string) :
  (∀ sym, sym ∈ symbols → always_fresh e s sym) →
  completion e (pools s) (length symbols) ≡ₚ seq 0 (length symbols) →
  ∃ results s' finished,
    fetch_stocks_concurrent symbols e s = (Ok results, s') ∧
    cache s' = cache s ∧ queries s' = queries s ∧
    finished ≡ₚ symbols ∧
    Forall2 (fun sym d => ∃ ts, cache s !! ("stock_" +:+ sym) = Some (d, ts))
      finished results ∧
    length results = length symbols.
Proof.
  intros Hfresh Hperm. unfold fetch_stocks_concurrent, bind, submit_all, lift.
  set (s0 := {| cache := cache s; clock_reads := clock_reads s;
                queries := queries s; pools := S (pools s) |}).
  set (tasks := omap (fun i => symbols !! i) (completion e (pools s) (length symbols))).
  assert (Htasks : tasks ≡ₚ symbols) by by apply completed_permutation.
  destruct (run_tasks_cached tasks e s0) as (Hc & Hq & Hret & Hall).
  { intros sym Hsym. rewrite Htasks in Hsym.
    destruct (Hfresh sym Hsym) as (d & ts & Hk & Ht). by exists d, ts. }
  destruct (run_tasks tasks e s0) as [fs s1]. simpl in *.
  rewrite (gather_returned fs [] Hret). exists (successes fs), s1, tasks.
  split; [done|]. split; [done|]. split; [done|]. split; [done|].
  split; [exact Hall|].
  rewrite <- (Forall2_length _ _ _ Hall). by rewrite Htasks.
Qed.

Lemma cached_fanout_witness :
  ∃ s',
    fetch_stocks_concurrent ["TCS.NS"] frozen_env warm = (Ok [sample_quote], s') ∧
    queries s' = queries warm.
Proof.
  destruct (cached_fanout frozen_env warm ["TCS.NS"])
    as (results & s' & finished & Hrun & _ & Hq & Hperm & Hall & _).
  - intros sym Hsym. apply list_elem_of_singleton in Hsym as ->.
    exists sample_quote, 0%Q. split; [reflexivity|]. intros n. reflexivity.
  - reflexivity.
  - apply Permutation_singleton_r in Hperm. subst finished.
    apply Forall2_cons_inv_l in Hall as (d & rest & (ts & Hd) & Hrest & ->).
    apply Forall2_nil_inv_l in Hrest as ->.
    vm_compute in Hd. injection Hd as <- _.
    exists s'. split; [exact Hrun | exact Hq].
Defined.
